(** * Sidetone generator (ChannelMaster/sidetonegen.c)

    A shallow embedding of the CMASIO local sidetone generator: the file-scope
    state of sidetonegen.c as a record, each public function as a function on
    that record, and the per-sample loop of [SidetoneGen_Generate] as a
    structural recursion over the number of frames.

    The operations of the C type [double] are collected in the class
    [DoubleArith]; its instance [binary64] is IEEE 754 double precision, the
    arithmetic the compiled code runs.  Properties that do not depend on the
    arithmetic are proved for the class, the others for [binary64].  The libm
    function [sin] is a parameter of the generation path. *)

From Stdlib Require Import ZArith List String Floats Lia.
From stdpp Require Import base list.

Local Open Scope Z_scope.

(** ** C integers *)

Module CInt.

Definition INT_MAX : Z := 2147483647.
Definition INT_MIN : Z := -2147483648.

(** Two's complement wrap-around of a mathematical integer into [int]. *)
Definition wrap (z : Z) : Z := (z + 2147483648) mod 4294967296 - 2147483648.

Definition add (x y : Z) : Z := wrap (x + y).
Definition mul (x y : Z) : Z := wrap (x * y).

(** [size_t] is 64 bits wide; an [int] converts to it modulo 2^64. *)
Definition SIZE_MODULUS : Z := 18446744073709551616.
Definition to_size_t (z : Z) : Z := z mod SIZE_MODULUS.
Definition size_mul (x y : Z) : Z := (x * y) mod SIZE_MODULUS.

Definition sizeof_double : Z := 8.

End CInt.

(** ** The arithmetic of [double] *)

Class DoubleArith (D : Type) := {
  of_int : Z -> D;            (* the conversion (double)i *)
  d_0    : D;                 (* the literal 0.0 *)
  d_1    : D;                 (* the literal 1.0 *)
  d_2    : D;                 (* the literal 2.0 *)
  M_PI   : D;                 (* math.h *)
  dadd   : D -> D -> D;
  dsub   : D -> D -> D;
  dmul   : D -> D -> D;
  ddiv   : D -> D -> D;
  dge    : D -> D -> bool     (* x >= y *)
}.

(** (double)z for an [int] z: exact, since |z| <= 2^31 < 2^53. *)
Definition double_of_int (z : Z) : float :=
  if z <? 0
  then PrimFloat.opp (PrimFloat.of_uint63 (Uint63.of_Z (- z)))
  else PrimFloat.of_uint63 (Uint63.of_Z z).

(** IEEE 754 binary64.  M_PI is the double nearest to pi,
    3.14159265358979323846 in math.h. *)
#[export] Instance binary64 : DoubleArith float := {
  of_int := double_of_int;
  d_0    := 0%float;
  d_1    := 1%float;
  d_2    := 2%float;
  M_PI   := 0x1.921fb54442d18p+1%float;
  dadd   := PrimFloat.add;
  dsub   := PrimFloat.sub;
  dmul   := PrimFloat.mul;
  ddiv   := PrimFloat.div;
  dge    := fun x y => PrimFloat.leb y x
}.

(** A degree-7 polynomial for [sin], used only to run closed examples on
    [binary64]; every theorem below holds for an arbitrary [sin]. *)
Definition sin_poly (x : float) : float :=
  let x2 := (x * x)%float in
  (x * (1 - x2 / 6 * (1 - x2 / 20 * (1 - x2 / 42))))%float.

(** ** Doubles as integers

    The order and the rounding of doubles are studied on their specification
    ([Prim2SF], SpecFloat), with the value of a finite double counted in
    units of 2^-1074, the smallest positive double. *)

Definition scaled (m : positive) (e : Z) : Z := Zpos m * 2 ^ (e + 1074).

(** Zero of either sign or positive finite. *)
Definition nonneg_finite (x : spec_float) : bool :=
  match x with
  | S754_zero _ => true
  | S754_finite false _ _ => true
  | _ => false
  end.

Definition value (x : spec_float) : Z :=
  match x with
  | S754_finite false m e => scaled m e
  | _ => 0
  end.

(** After [k] right shifts of [M] the record holds the quotient by 2^k, and
    a set round or sticky bit tells that bits were lost. *)
Definition shr_inv (M k : Z) (mrs : shr_record) : Prop :=
  0 <= shr_m mrs /\
  2 ^ k * shr_m mrs <= M < 2 ^ k * (shr_m mrs + 1) /\
  (shr_r mrs || shr_s mrs = true -> 2 ^ k * shr_m mrs < M).

(** [2.0 * M_PI] as the code computes it, and its mantissa at exponent -50. *)
Definition TWO_PI : float := 0x1.921fb54442d18p+2%float.
Definition TWO_PI_mantissa : positive := 7074237752028440.

(** ** Private state *)

Section Generator.

Context {D : Type} `{DoubleArith D}.

(** The file-scope variables of sidetonegen.c.  A callback pointer is [None]
    when NULL.  [debug_output] collects the strings handed to
    OutputDebugStringA, most recent first. *)
Record globals := mkGlobals {
  g_tx_active    : Z;
  g_phase        : D;
  g_fade_state   : Z;          (* 0=idle, 1=fade_in, 2=active, 3=fade_out *)
  g_fade_counter : Z;
  g_buffer       : option (list D);
  g_blocksize    : Z;
  g_getEnabled   : option (unit -> Z);
  g_getFreq      : option (unit -> Z);
  g_getVolume    : option (unit -> D);
  debug_output   : list string
}.

Definition FADE_SAMPLES : Z := 48.

(** The static initialisers. *)
Definition initial_globals : globals :=
  {| g_tx_active := 0; g_phase := d_0; g_fade_state := 0; g_fade_counter := 0;
     g_buffer := None; g_blocksize := 0;
     g_getEnabled := None; g_getFreq := None; g_getVolume := None;
     debug_output := [] |}.

Definition set_tx_active (v : Z) (g : globals) : globals :=
  {| g_tx_active := v; g_phase := g_phase g; g_fade_state := g_fade_state g;
     g_fade_counter := g_fade_counter g; g_buffer := g_buffer g;
     g_blocksize := g_blocksize g; g_getEnabled := g_getEnabled g;
     g_getFreq := g_getFreq g; g_getVolume := g_getVolume g;
     debug_output := debug_output g |}.

Definition set_phase (p : D) (g : globals) : globals :=
  {| g_tx_active := g_tx_active g; g_phase := p; g_fade_state := g_fade_state g;
     g_fade_counter := g_fade_counter g; g_buffer := g_buffer g;
     g_blocksize := g_blocksize g; g_getEnabled := g_getEnabled g;
     g_getFreq := g_getFreq g; g_getVolume := g_getVolume g;
     debug_output := debug_output g |}.

Definition set_fade_state (s : Z) (g : globals) : globals :=
  {| g_tx_active := g_tx_active g; g_phase := g_phase g; g_fade_state := s;
     g_fade_counter := g_fade_counter g; g_buffer := g_buffer g;
     g_blocksize := g_blocksize g; g_getEnabled := g_getEnabled g;
     g_getFreq := g_getFreq g; g_getVolume := g_getVolume g;
     debug_output := debug_output g |}.

Definition set_fade_counter (c : Z) (g : globals) : globals :=
  {| g_tx_active := g_tx_active g; g_phase := g_phase g;
     g_fade_state := g_fade_state g; g_fade_counter := c;
     g_buffer := g_buffer g; g_blocksize := g_blocksize g;
     g_getEnabled := g_getEnabled g; g_getFreq := g_getFreq g;
     g_getVolume := g_getVolume g; debug_output := debug_output g |}.

Definition set_buffer (b : option (list D)) (g : globals) : globals :=
  {| g_tx_active := g_tx_active g; g_phase := g_phase g;
     g_fade_state := g_fade_state g; g_fade_counter := g_fade_counter g;
     g_buffer := b; g_blocksize := g_blocksize g;
     g_getEnabled := g_getEnabled g; g_getFreq := g_getFreq g;
     g_getVolume := g_getVolume g; debug_output := debug_output g |}.

Definition set_blocksize (n : Z) (g : globals) : globals :=
  {| g_tx_active := g_tx_active g; g_phase := g_phase g;
     g_fade_state := g_fade_state g; g_fade_counter := g_fade_counter g;
     g_buffer := g_buffer g; g_blocksize := n;
     g_getEnabled := g_getEnabled g; g_getFreq := g_getFreq g;
     g_getVolume := g_getVolume g; debug_output := debug_output g |}.

Definition set_callbacks (e f : option (unit -> Z)) (v : option (unit -> D))
    (g : globals) : globals :=
  {| g_tx_active := g_tx_active g; g_phase := g_phase g;
     g_fade_state := g_fade_state g; g_fade_counter := g_fade_counter g;
     g_buffer := g_buffer g; g_blocksize := g_blocksize g;
     g_getEnabled := e; g_getFreq := f; g_getVolume := v;
     debug_output := debug_output g |}.

Definition OutputDebugStringA (s : string) (g : globals) : globals :=
  {| g_tx_active := g_tx_active g; g_phase := g_phase g;
     g_fade_state := g_fade_state g; g_fade_counter := g_fade_counter g;
     g_buffer := g_buffer g; g_blocksize := g_blocksize g;
     g_getEnabled := g_getEnabled g; g_getFreq := g_getFreq g;
     g_getVolume := g_getVolume g; debug_output := s :: debug_output g |}.

(** ** Private helpers *)

(** [malloc0]: an aligned allocation of [size] bytes, zero-filled.  Whether
    the allocator succeeds is an input ([heap_ok]); the block is seen as the
    doubles it holds. *)
Definition malloc0 (heap_ok : bool) (size : Z) : option (list D) :=
  if heap_ok
  then Some (replicate (Z.to_nat (size / CInt.sizeof_double)) d_0)
  else None.

(** ** Public API *)

Definition SidetoneGen_Initialize (heap_ok : bool) (blocksize : Z)
    (g : globals) : globals :=
  let g := set_blocksize blocksize g in
  let size :=
    CInt.size_mul (CInt.to_size_t (CInt.mul blocksize 2)) CInt.sizeof_double in
  let g := set_buffer (malloc0 heap_ok size) g in
  match g_buffer g with
  | None =>
      OutputDebugStringA "ERROR: SidetoneGen failed to allocate buffer" g
  | Some _ =>
      let g := set_tx_active 0 g in
      let g := set_phase d_0 g in
      let g := set_fade_state 0 g in
      let g := set_fade_counter 0 g in
      OutputDebugStringA "SidetoneGen: Initialized successfully" g
  end.

Definition SidetoneGen_Destroy (g : globals) : globals :=
  let g := match g_buffer g with
           | Some _ => set_buffer None g
           | None => g
           end in
  let g := set_blocksize 0 g in
  let g := set_tx_active 0 g in
  let g := set_phase d_0 g in
  let g := set_fade_state 0 g in
  let g := set_fade_counter 0 g in
  let g := set_callbacks None None None g in
  OutputDebugStringA "SidetoneGen: Destroyed" g.

Definition SidetoneGen_SetTXActive (tx_active : Z) (g : globals) : globals :=
  if g_tx_active g =? tx_active then g      (* No change *)
  else
    let g := set_tx_active tx_active g in
    if tx_active =? 1 then                  (* RX -> TX transition *)
      let g := set_phase d_0 g in
      let g := set_fade_state 1 g in
      let g := set_fade_counter 0 g in
      OutputDebugStringA "SidetoneGen: TX ON - fade-in started" g
    else                                    (* TX -> RX transition *)
      let g := set_fade_state 3 g in
      let g := set_fade_counter 0 g in
      OutputDebugStringA "SidetoneGen: TX OFF - fade-out started" g.

Definition SidetoneGen_SetCallbacks (getEnabled getFreq : option (unit -> Z))
    (getVolume : option (unit -> D)) (g : globals) : globals :=
  let g := set_callbacks getEnabled getFreq getVolume g in
  OutputDebugStringA "SidetoneGen: Callbacks registered" g.

Definition SidetoneGen_IsActive (g : globals) : Z :=
  if g_tx_active g =? 0 then 0
  else match g_getEnabled g with
       | Some getEnabled => getEnabled tt
       | None => 0                          (* Default: not active *)
       end.

(** ** Generation *)

Variable sin : D -> D.                      (* math.h *)

(** A write [buffer[idx] = v] through the caller's pointer.  The caller
    passes a block of [length buffer] doubles; a write outside it is
    undefined behaviour, rendered as [None]. *)
Definition store (buffer : list D) (idx : Z) (v : D) : option (list D) :=
  if (0 <=? idx) && (idx <? Z.of_nat (length buffer))
  then Some (<[Z.to_nat idx := v]> buffer)
  else None.

(** [memset(buffer, 0, nbytes)]: the all-zero bit pattern is the double 0.0.
    [nbytes] is a multiple of [sizeof(double)] at the only call site. *)
Definition memset_zero (buffer : list D) (nbytes : Z) : option (list D) :=
  if nbytes <=? CInt.sizeof_double * Z.of_nat (length buffer)
  then let n := Z.to_nat (nbytes / CInt.sizeof_double) in
       Some (replicate n d_0 ++ drop n buffer)
  else None.

(** Lines 148-171: the fade envelope of one frame and the envelope state
    after it. *)
Definition fade_envelope (g : globals) : D * globals :=
  let envelope := d_1 in
  if g_fade_state g =? 1 then               (* Fade IN *)
    let envelope := ddiv (of_int (g_fade_counter g)) (of_int FADE_SAMPLES) in
    let g := set_fade_counter (CInt.add (g_fade_counter g) 1) g in
    if g_fade_counter g >=? FADE_SAMPLES
    then (envelope, set_fade_state 2 g)     (* Transition to active *)
    else (envelope, g)
  else if g_fade_state g =? 3 then          (* Fade OUT *)
    let envelope :=
      dsub d_1 (ddiv (of_int (g_fade_counter g)) (of_int FADE_SAMPLES)) in
    let g := set_fade_counter (CInt.add (g_fade_counter g) 1) g in
    if g_fade_counter g >=? FADE_SAMPLES
    then (d_0, set_fade_state 0 g)          (* Transition to idle *)
    else (envelope, g)
  else if g_fade_state g =? 0 then          (* Idle (silent) *)
    (d_0, g)
  else (envelope, g).                       (* active: envelope = 1.0 *)

(** Lines 179-182: update phase with wrapping. *)
Definition advance_phase (delta_phase : D) (g : globals) : globals :=
  let g := set_phase (dadd (g_phase g) delta_phase) g in
  if dge (g_phase g) (dmul d_2 M_PI)
  then set_phase (dsub (g_phase g) (dmul d_2 M_PI)) g
  else g.

(** The body of the sample loop for frame [i]. *)
Definition gen_frame (volume delta_phase : D) (i : Z)
    (gb : globals * list D) : option (globals * list D) :=
  let '(g, buffer) := gb in
  let sample := dmul (sin (g_phase g)) volume in
  let '(envelope, g) := fade_envelope g in
  let sample := dmul sample envelope in
  match store buffer (CInt.mul 2 i) sample with
  | None => None
  | Some buffer =>
      match store buffer (CInt.add (CInt.mul 2 i) 1) sample with
      | None => None
      | Some buffer => Some (advance_phase delta_phase g, buffer)
      end
  end.

(** [for (int i = ...; i < nsamples; i++)] with [count] iterations left. *)
Fixpoint gen_loop (volume delta_phase : D) (count : nat) (i : Z)
    (gb : globals * list D) : option (globals * list D) :=
  match count with
  | O => Some gb
  | S count' =>
      match gen_frame volume delta_phase i gb with
      | None => None
      | Some gb' => gen_loop volume delta_phase count' (CInt.add i 1) gb'
      end
  end.

(** The per-frame phase increment computed at line 139. *)
Definition delta_phase_of (freq samplerate : Z) : D :=
  ddiv (dmul (dmul d_2 M_PI) (of_int freq)) (of_int samplerate).

(** [buffer] is [None] for a NULL pointer.  The result is [None] when the
    call writes outside the caller's block. *)
Definition SidetoneGen_Generate (buffer : option (list D))
    (nsamples samplerate : Z) (g : globals)
    : option (globals * option (list D)) :=
  match buffer, g_buffer g with
  | None, _ | _, None => Some (g, buffer)   (* Safety checks *)
  | Some out, Some _ =>
      match g_getFreq g, g_getVolume g with
      | Some getFreq, Some getVolume =>
          let freq := getFreq tt in
          let volume := getVolume tt in
          let delta_phase := delta_phase_of freq samplerate in
          match gen_loop volume delta_phase (Z.to_nat nsamples) 0 (g, out) with
          | None => None
          | Some (g, out) => Some (g, Some out)
          end
      | _, _ =>                             (* No callbacks: silence *)
          let nbytes :=
            CInt.size_mul (CInt.to_size_t (CInt.mul nsamples 2))
                          CInt.sizeof_double in
          match memset_zero out nbytes with
          | None => None
          | Some out => Some (g, Some out)
          end
      end
  end.

(** The states the public API can produce from the static initialisers. *)
Inductive reachable : globals -> Prop :=
| reach_initial : reachable initial_globals
| reach_Initialize heap_ok blocksize g :
    reachable g -> reachable (SidetoneGen_Initialize heap_ok blocksize g)
| reach_Destroy g :
    reachable g -> reachable (SidetoneGen_Destroy g)
| reach_SetTXActive tx_active g :
    reachable g -> reachable (SidetoneGen_SetTXActive tx_active g)
| reach_SetCallbacks getEnabled getFreq getVolume g :
    reachable g ->
    reachable (SidetoneGen_SetCallbacks getEnabled getFreq getVolume g)
| reach_Generate buffer nsamples samplerate g g' buffer' :
    reachable g ->
    SidetoneGen_Generate buffer nsamples samplerate g = Some (g', buffer') ->
    reachable g'.

(** While the stored transmit state is 1 the envelope fades in or sustains. *)
Definition transmit_invariant (g : globals) : Prop :=
  g_tx_active g = 1 -> g_fade_state g = 1 \/ g_fade_state g = 2.

(** The envelope state is one of the four named states, and a running ramp
    has not yet counted [FADE_SAMPLES] frames. *)
Definition fade_invariant (g : globals) : Prop :=
  0 <= g_fade_counter g <= FADE_SAMPLES /\
  (g_fade_state g = 0 \/ g_fade_state g = 2 \/
   ((g_fade_state g = 1 \/ g_fade_state g = 3) /\
    g_fade_counter g < FADE_SAMPLES)).

(** [g'] differs from [g] at most in the phase, the fade state and the fade
    counter. *)
Definition same_configuration (g g' : globals) : Prop :=
  g_tx_active g' = g_tx_active g /\
  g_buffer g' = g_buffer g /\
  g_blocksize g' = g_blocksize g /\
  g_getEnabled g' = g_getEnabled g /\
  g_getFreq g' = g_getFreq g /\
  g_getVolume g' = g_getVolume g /\
  debug_output g' = debug_output g.

(** ** Frame-level view of the loop

    The state part of one iteration, and the quantities of frame [k] counted
    from a given state. *)

Definition frame_next (delta_phase : D) (g : globals) : globals :=
  advance_phase delta_phase (snd (fade_envelope g)).

Fixpoint frames (k : nat) (delta_phase : D) (g : globals) : globals :=
  match k with
  | O => g
  | S k' => frames k' delta_phase (frame_next delta_phase g)
  end.

(** The envelope applied at frame [k]. *)
Definition envelope_at (k : nat) (delta_phase : D) (g : globals) : D :=
  fst (fade_envelope (frames k delta_phase g)).

(** The oscillator phase before the increment of frame [k]. *)
Definition phase_at (k : nat) (delta_phase : D) (g : globals) : D :=
  g_phase (frames k delta_phase g).

(** The value written to both channels at frame [k]. *)
Definition sample_at (volume delta_phase : D) (k : nat) (g : globals) : D :=
  dmul (dmul (sin (phase_at k delta_phase g)) volume)
       (envelope_at k delta_phase g).

End Generator.

Arguments globals D : clear implicits.

(** ** A reference run

    The set-up of the end-to-end scenario: [initialize(512)], providers
    returning enabled, 600 Hz and volume 0.5, on [binary64]. *)

Definition example_ready : globals float :=
  SidetoneGen_SetCallbacks
    (Some (fun _ => 1)) (Some (fun _ => 600)) (Some (fun _ => 0.5%float))
    (SidetoneGen_Initialize true 512 initial_globals).

Definition example_tx_on : globals float :=
  SidetoneGen_SetTXActive 1 example_ready.

(** The phase increment of 600 Hz at 48 kHz. *)
Definition example_delta : float := delta_phase_of 600 48000.

(** A frequency provider that returns -600. *)
Definition example_negative : globals float :=
  SidetoneGen_SetCallbacks
    (Some (fun _ => 1)) (Some (fun _ => -600)) (Some (fun _ => 0.5%float))
    (SidetoneGen_Initialize true 512 initial_globals).

(** * Properties *)

(** ** Integer facts *)

Lemma wrap_in_range (z : Z) :
  CInt.INT_MIN <= z <= CInt.INT_MAX -> CInt.wrap z = z.
Proof.
  unfold CInt.wrap, CInt.INT_MIN, CInt.INT_MAX. intros Hz.
  rewrite Z.mod_small by lia. lia.
Qed.

(** An index [2*i] that did not wrap is the mathematical [2*i]. *)
Lemma mul2_nonneg (i : Z) :
  0 <= i <= CInt.INT_MAX -> 0 <= CInt.mul 2 i ->
  CInt.mul 2 i = 2 * i /\ 2 * i + 1 <= CInt.INT_MAX.
Proof.
  unfold CInt.mul, CInt.wrap, CInt.INT_MAX. intros Hi Hw.
  destruct (Z_lt_dec (2 * i) 2147483648) as [Hlt | Hge].
  - rewrite Z.mod_small by lia. lia.
  - exfalso.
    replace (2 * i + 2147483648)
      with ((2 * i - 2147483648) + 1 * 4294967296) in Hw by lia.
    rewrite Z.mod_add in Hw by lia.
    rewrite Z.mod_small in Hw by lia. lia.
Qed.

Section Properties.

Context {D : Type} `{DoubleArith D}.
Variable sin : D -> D.

(** ** What one frame leaves alone *)

Lemma fade_envelope_phase (g : globals D) :
  g_phase (snd (fade_envelope g)) = g_phase g.
Proof.
  unfold fade_envelope.
  repeat match goal with |- context [if ?b then _ else _] => destruct b end;
    reflexivity.
Qed.

Lemma advance_phase_fade (delta : D) (g : globals D) :
  g_fade_state (advance_phase delta g) = g_fade_state g /\
  g_fade_counter (advance_phase delta g) = g_fade_counter g.
Proof.
  unfold advance_phase.
  destruct (dge _ _); split; reflexivity.
Qed.

Lemma frame_next_fade (delta : D) (g : globals D) :
  g_fade_state (frame_next delta g) = g_fade_state (snd (fade_envelope g)) /\
  g_fade_counter (frame_next delta g) = g_fade_counter (snd (fade_envelope g)).
Proof. unfold frame_next. apply advance_phase_fade. Qed.

Lemma frame_next_tx_active (delta : D) (g : globals D) :
  g_tx_active (frame_next delta g) = g_tx_active g.
Proof.
  unfold frame_next, advance_phase, fade_envelope.
  repeat match goal with |- context [if ?b then _ else _] => destruct b end;
    reflexivity.
Qed.

Lemma frames_tx_active (delta : D) (k : nat) : forall g : globals D,
  g_tx_active (frames k delta g) = g_tx_active g.
Proof.
  induction k as [|k IH]; intros g; simpl; [reflexivity|].
  rewrite IH. apply frame_next_tx_active.
Qed.

(** Frame [k+1] is one more iteration after frame [k]. *)
Lemma frames_succ (delta : D) (k : nat) : forall g : globals D,
  frames (S k) delta g = frame_next delta (frames k delta g).
Proof.
  induction k as [|k IH]; intros g; [reflexivity|].
  change (frames (S (S k)) delta g)
    with (frames (S k) delta (frame_next delta g)).
  rewrite IH. reflexivity.
Qed.

(** ** The envelope state machine, one frame at a time *)

Lemma fade_in_frame (g : globals D) :
  g_fade_state g = 1 -> 0 <= g_fade_counter g < FADE_SAMPLES ->
  fst (fade_envelope g) =
    ddiv (of_int (g_fade_counter g)) (of_int FADE_SAMPLES) /\
  g_fade_counter (snd (fade_envelope g)) = g_fade_counter g + 1 /\
  g_fade_state (snd (fade_envelope g)) =
    (if g_fade_counter g + 1 >=? FADE_SAMPLES then 2 else 1).
Proof.
  unfold fade_envelope, FADE_SAMPLES. intros Hs Hc. rewrite Hs. simpl.
  unfold CInt.add. rewrite wrap_in_range by (unfold CInt.INT_MIN, CInt.INT_MAX; lia).
  destruct (g_fade_counter g + 1 >=? 48); simpl; auto.
Qed.

Lemma fade_out_frame (g : globals D) :
  g_fade_state g = 3 -> 0 <= g_fade_counter g < FADE_SAMPLES ->
  fst (fade_envelope g) =
    (if g_fade_counter g + 1 >=? FADE_SAMPLES then d_0
     else dsub d_1 (ddiv (of_int (g_fade_counter g)) (of_int FADE_SAMPLES))) /\
  g_fade_counter (snd (fade_envelope g)) = g_fade_counter g + 1 /\
  g_fade_state (snd (fade_envelope g)) =
    (if g_fade_counter g + 1 >=? FADE_SAMPLES then 0 else 3).
Proof.
  unfold fade_envelope, FADE_SAMPLES. intros Hs Hc. rewrite Hs. simpl.
  unfold CInt.add. rewrite wrap_in_range by (unfold CInt.INT_MIN, CInt.INT_MAX; lia).
  destruct (g_fade_counter g + 1 >=? 48); simpl; auto.
Qed.

Lemma sustain_frame (g : globals D) :
  g_fade_state g = 2 -> fade_envelope g = (d_1, g).
Proof. unfold fade_envelope. intros ->. reflexivity. Qed.

Lemma idle_frame (g : globals D) :
  g_fade_state g = 0 -> fade_envelope g = (d_0, g).
Proof. unfold fade_envelope. intros ->. reflexivity. Qed.

(** While a ramp runs, the counter is the number of frames since it began. *)
Lemma ramp_frames (delta : D) (s : Z) (g : globals D) :
  (s = 1 \/ s = 3) -> g_fade_state g = s -> g_fade_counter g = 0 ->
  forall k : nat, (k < 48)%nat ->
    g_fade_state (frames k delta g) = s /\
    g_fade_counter (frames k delta g) = Z.of_nat k.
Proof.
  intros Hs Hst Hc. induction k as [|k IH]; intros Hk.
  - simpl. auto.
  - destruct IH as [IHs IHc]; [lia|].
    rewrite frames_succ.
    destruct (frame_next_fade delta (frames k delta g)) as [-> ->].
    destruct Hs as [-> | ->].
    + destruct (fade_in_frame (frames k delta g)) as (_ & -> & ->);
        unfold FADE_SAMPLES; [assumption | lia |].
      rewrite IHc. destruct (Z.geb_spec (Z.of_nat k + 1) 48); [lia|].
      split; [reflexivity | lia].
    + destruct (fade_out_frame (frames k delta g)) as (_ & -> & ->);
        unfold FADE_SAMPLES; [assumption | lia |].
      rewrite IHc. destruct (Z.geb_spec (Z.of_nat k + 1) 48); [lia|].
      split; [reflexivity | lia].
Qed.

(** ** The sample loop *)

Lemma store_inv (buffer out : list D) (idx : Z) (v : D) :
  store buffer idx v = Some out ->
  0 <= idx < Z.of_nat (length buffer) /\ out = <[Z.to_nat idx := v]> buffer.
Proof.
  unfold store.
  destruct (Z.leb_spec 0 idx), (Z.ltb_spec idx (Z.of_nat (length buffer)));
    simpl; intros Heq; try discriminate.
  injection Heq as <-. split; [lia | reflexivity].
Qed.

Lemma store_in_bounds (buffer : list D) (idx : Z) (v : D) :
  0 <= idx < Z.of_nat (length buffer) ->
  store buffer idx v = Some (<[Z.to_nat idx := v]> buffer).
Proof.
  unfold store. intros Hidx.
  destruct (Z.leb_spec 0 idx), (Z.ltb_spec idx (Z.of_nat (length buffer)));
    simpl; try lia; reflexivity.
Qed.

(** A frame that returns wrote [sample_at 0] to both channels of frame [i]
    and left the state [frame_next] describes. *)
Lemma gen_frame_inv (volume delta : D) (i : Z) (g g' : globals D)
    (buffer out : list D) :
  0 <= i <= CInt.INT_MAX ->
  gen_frame sin volume delta i (g, buffer) = Some (g', out) ->
  g' = frame_next delta g /\
  2 * i + 1 < Z.of_nat (length buffer) /\
  2 * i + 1 <= CInt.INT_MAX /\
  out = <[Z.to_nat (2 * i + 1) := sample_at sin volume delta 0 g]>
          (<[Z.to_nat (2 * i) := sample_at sin volume delta 0 g]> buffer).
Proof.
  intros Hi. unfold gen_frame, frame_next, sample_at, envelope_at, phase_at.
  simpl frames. destruct (fade_envelope g) as [envelope g1]. simpl fst; simpl snd.
  destruct (store buffer (CInt.mul 2 i) _) as [b1|] eqn:E1; [|discriminate].
  destruct (store b1 _ _) as [b2|] eqn:E2; [|discriminate].
  intros Heq. injection Heq as <- <-.
  apply store_inv in E1 as [Hidx1 ->].
  destruct (mul2_nonneg i Hi) as [Hmul Hmax]; [lia|].
  rewrite Hmul in *.
  unfold CInt.add in E2.
  rewrite wrap_in_range in E2 by (unfold CInt.INT_MIN; lia).
  apply store_inv in E2 as [Hidx2 ->].
  rewrite length_insert in Hidx2.
  repeat split; try reflexivity; lia.
Qed.

Lemma gen_frame_in_bounds (volume delta : D) (i : Z) (g : globals D)
    (buffer : list D) :
  0 <= i -> 2 * i + 1 <= CInt.INT_MAX ->
  2 * i + 1 < Z.of_nat (length buffer) ->
  exists out, gen_frame sin volume delta i (g, buffer) =
                Some (frame_next delta g, out) /\
              length out = length buffer.
Proof.
  intros Hi Hmax Hlen. unfold gen_frame, frame_next.
  destruct (fade_envelope g) as [envelope g1]. simpl snd.
  unfold CInt.mul, CInt.add.
  rewrite (wrap_in_range (2 * i)) by (unfold CInt.INT_MIN; lia).
  rewrite wrap_in_range by (unfold CInt.INT_MIN; lia).
  rewrite store_in_bounds by lia.
  rewrite store_in_bounds by (rewrite length_insert; lia).
  eexists. split; [reflexivity|]. now rewrite !length_insert.
Qed.

(** A loop that returns has run [count] frames: the state is [frames count],
    frame [i + j] holds the sample of frame [j] on both channels, and the
    buffer outside the frames written is as before. *)
Lemma gen_loop_inv (volume delta : D) (count : nat) :
  forall (i : Z) (g g' : globals D) (buffer out : list D),
  0 <= i <= CInt.INT_MAX ->
  gen_loop sin volume delta count i (g, buffer) = Some (g', out) ->
  g' = frames count delta g /\
  length out = length buffer /\
  (forall idx : nat,
     Z.of_nat idx < 2 * i \/ 2 * (i + Z.of_nat count) <= Z.of_nat idx ->
     out !! idx = buffer !! idx) /\
  (forall j : nat, (j < count)%nat ->
     out !! Z.to_nat (2 * (i + Z.of_nat j)) =
       Some (sample_at sin volume delta j g) /\
     out !! Z.to_nat (2 * (i + Z.of_nat j) + 1) =
       Some (sample_at sin volume delta j g)).
Proof.
  induction count as [|count IH]; intros i g g' buffer out Hi Hrun.
  - simpl in Hrun. injection Hrun as <- <-.
    repeat split; try reflexivity; intros; lia.
  - cbn [gen_loop] in Hrun.
    destruct (gen_frame sin volume delta i (g, buffer)) as [[g1 b1]|] eqn:E;
      [|discriminate Hrun].
    apply gen_frame_inv in E as (-> & Hlen & Hmax & ->); [|assumption].
    unfold CInt.add in Hrun.
    rewrite wrap_in_range in Hrun by (unfold CInt.INT_MIN, CInt.INT_MAX in *; lia).
    apply IH in Hrun as (-> & Hlen' & Hkeep & Hsamples);
      [|unfold CInt.INT_MAX in *; lia].
    rewrite !length_insert in Hlen'.
    assert (Hb1 : forall idx : nat,
               Z.of_nat idx < 2 * i \/ 2 * i + 2 <= Z.of_nat idx ->
               <[Z.to_nat (2 * i + 1) := sample_at sin volume delta 0 g]>
                 (<[Z.to_nat (2 * i) := sample_at sin volume delta 0 g]> buffer)
                 !! idx = buffer !! idx).
    { intros idx Hidx. rewrite !list_lookup_insert_ne by lia. reflexivity. }
    split; [reflexivity|]. split; [assumption|]. split.
    + intros idx Hidx. rewrite Hkeep by lia. apply Hb1. lia.
    + intros [|j] Hj.
      * rewrite !Hkeep by lia.
        replace (2 * (i + Z.of_nat 0)) with (2 * i) by lia. split.
        -- rewrite list_lookup_insert_ne by lia.
           apply list_lookup_insert_eq. lia.
        -- apply list_lookup_insert_eq. rewrite length_insert. lia.
      * destruct (Hsamples j) as [HL HR]; [lia|].
        replace (2 * (i + Z.of_nat (S j))) with (2 * (i + 1 + Z.of_nat j)) by lia.
        rewrite HL, HR. split; reflexivity.
Qed.

(** The loop returns whenever the caller's block holds the frames asked for. *)
Lemma gen_loop_in_bounds (volume delta : D) (count : nat) :
  forall (i : Z) (g : globals D) (buffer : list D),
  0 <= i ->
  2 * (i + Z.of_nat count) <= Z.of_nat (length buffer) ->
  2 * (i + Z.of_nat count) <= CInt.INT_MAX + 1 ->
  exists out, gen_loop sin volume delta count i (g, buffer) =
                Some (frames count delta g, out).
Proof.
  induction count as [|count IH]; intros i g buffer Hi Hlen Hmax.
  - exists buffer. reflexivity.
  - cbn [gen_loop frames].
    destruct (gen_frame_in_bounds volume delta i g buffer) as (b1 & -> & Hb1);
      [lia | lia | lia |].
    unfold CInt.add.
    rewrite wrap_in_range by (unfold CInt.INT_MIN, CInt.INT_MAX in *; lia).
    apply IH; [lia | rewrite Hb1; lia | lia].
Qed.

(** A call that passes both guards and finds both providers is the loop. *)
Lemma Generate_is_loop (out out' : list D) (nsamples samplerate : Z)
    (g g' : globals D) (getFreq : unit -> Z) (getVolume : unit -> D) :
  is_Some (g_buffer g) ->
  g_getFreq g = Some getFreq -> g_getVolume g = Some getVolume ->
  SidetoneGen_Generate sin (Some out) nsamples samplerate g
    = Some (g', Some out') <->
  gen_loop sin (getVolume tt) (delta_phase_of (getFreq tt) samplerate)
    (Z.to_nat nsamples) 0 (g, out) = Some (g', out').
Proof.
  intros [b Hb] Hf Hv. unfold SidetoneGen_Generate. rewrite Hb, Hf, Hv.
  destruct (gen_loop _ _ _ _ _ _) as [[g2 o2]|]; split; intros Heq;
    try discriminate; injection Heq as <- <-; reflexivity.
Qed.

(** The caller's block is large enough: the call returns. *)
Lemma Generate_returns (out : list D) (nsamples samplerate : Z)
    (g : globals D) (getFreq : unit -> Z) (getVolume : unit -> D) :
  is_Some (g_buffer g) ->
  g_getFreq g = Some getFreq -> g_getVolume g = Some getVolume ->
  2 * nsamples <= Z.of_nat (length out) ->
  2 * nsamples <= CInt.INT_MAX + 1 ->
  exists out',
    SidetoneGen_Generate sin (Some out) nsamples samplerate g =
      Some (frames (Z.to_nat nsamples)
              (delta_phase_of (getFreq tt) samplerate) g, Some out').
Proof.
  intros Hb Hf Hv Hlen Hmax.
  destruct (gen_loop_in_bounds (getVolume tt)
              (delta_phase_of (getFreq tt) samplerate)
              (Z.to_nat nsamples) 0 g out) as [out' Hrun];
    [lia | lia | unfold CInt.INT_MAX in *; lia |].
  exists out'. now apply (Generate_is_loop out out' _ _ g _ getFreq getVolume).
Qed.

(** ** The transmit edge *)

Lemma SetTXActive_stores (v : Z) (g : globals D) :
  g_tx_active (SidetoneGen_SetTXActive v g) = v.
Proof.
  unfold SidetoneGen_SetTXActive.
  destruct (Z.eqb_spec (g_tx_active g) v); [assumption|].
  destruct (v =? 1); reflexivity.
Qed.

Lemma SetTXActive_same (v : Z) (g : globals D) :
  g_tx_active g = v -> SidetoneGen_SetTXActive v g = g.
Proof.
  intros Hv. unfold SidetoneGen_SetTXActive. now rewrite Hv, Z.eqb_refl.
Qed.

Lemma SetTXActive_on (g : globals D) :
  g_tx_active g <> 1 ->
  g_fade_state (SidetoneGen_SetTXActive 1 g) = 1 /\
  g_fade_counter (SidetoneGen_SetTXActive 1 g) = 0 /\
  g_phase (SidetoneGen_SetTXActive 1 g) = d_0.
Proof.
  intros Htx. unfold SidetoneGen_SetTXActive.
  destruct (Z.eqb_spec (g_tx_active g) 1); [contradiction|].
  repeat split; reflexivity.
Qed.

Lemma SetTXActive_off (v : Z) (g : globals D) :
  v <> 1 -> g_tx_active g <> v ->
  g_fade_state (SidetoneGen_SetTXActive v g) = 3 /\
  g_fade_counter (SidetoneGen_SetTXActive v g) = 0 /\
  g_phase (SidetoneGen_SetTXActive v g) = g_phase g.
Proof.
  intros Hv Htx. unfold SidetoneGen_SetTXActive.
  destruct (Z.eqb_spec (g_tx_active g) v); [contradiction|].
  destruct (Z.eqb_spec v 1); [contradiction|].
  repeat split; reflexivity.
Qed.

(** The envelope of frame [i] of a fade-in that started with counter 0. *)
Lemma fade_in_envelope (delta : D) (g : globals D) :
  g_fade_state g = 1 -> g_fade_counter g = 0 ->
  forall i : nat, (i < 48)%nat ->
    envelope_at i delta g = ddiv (of_int (Z.of_nat i)) (of_int FADE_SAMPLES).
Proof.
  intros Hs Hc i Hi.
  destruct (ramp_frames delta 1 g (or_introl eq_refl) Hs Hc i Hi) as [Hsi Hci].
  destruct (fade_in_frame (frames i delta g)) as (He & _ & _);
    [assumption | unfold FADE_SAMPLES; lia |].
  unfold envelope_at. rewrite He, Hci. reflexivity.
Qed.

(** The first frame of a fade-out that starts with counter 0. *)
Lemma fade_out_first_envelope (delta : D) (g : globals D) :
  g_fade_state g = 3 -> g_fade_counter g = 0 ->
  envelope_at 0 delta g = dsub d_1 (ddiv (of_int 0) (of_int FADE_SAMPLES)).
Proof.
  intros Hs Hc.
  destruct (fade_out_frame g) as (He & _ & _);
    [assumption | unfold FADE_SAMPLES; lia |].
  unfold envelope_at. simpl frames. rewrite He, Hc. reflexivity.
Qed.

(** ** Reachable states *)

Lemma frame_next_invariant (delta : D) (g : globals D) :
  transmit_invariant g -> transmit_invariant (frame_next delta g).
Proof.
  unfold transmit_invariant. rewrite frame_next_tx_active. intros Hinv Htx.
  destruct (frame_next_fade delta g) as [-> _].
  destruct (Hinv Htx) as [Hs | Hs].
  - unfold fade_envelope. rewrite Hs. simpl.
    destruct (_ >=? _); simpl; auto.
  - rewrite sustain_frame by exact Hs. auto.
Qed.

Lemma frames_invariant (delta : D) (k : nat) : forall g : globals D,
  transmit_invariant g -> transmit_invariant (frames k delta g).
Proof.
  induction k as [|k IH]; intros g Hinv; simpl; [exact Hinv|].
  apply IH, frame_next_invariant, Hinv.
Qed.

Lemma Generate_invariant (buffer buffer' : option (list D))
    (nsamples samplerate : Z) (g g' : globals D) :
  SidetoneGen_Generate sin buffer nsamples samplerate g = Some (g', buffer') ->
  transmit_invariant g -> transmit_invariant g'.
Proof.
  unfold SidetoneGen_Generate. intros Hrun Hinv.
  destruct buffer as [out|]; [|injection Hrun as <- _; exact Hinv].
  destruct (g_buffer g); [|injection Hrun as <- _; exact Hinv].
  destruct (g_getFreq g) as [getFreq|], (g_getVolume g) as [getVolume|];
    try (destruct (memset_zero out _); [injection Hrun as <- _; exact Hinv
                                       | discriminate Hrun]).
  destruct (gen_loop _ _ _ _ _ _) as [[g2 o2]|] eqn:Eloop; [|discriminate Hrun].
  injection Hrun as <- _.
  apply gen_loop_inv in Eloop as (-> & _); [|unfold CInt.INT_MAX; lia].
  apply frames_invariant, Hinv.
Qed.

Lemma reachable_invariant (g : globals D) :
  reachable sin g -> transmit_invariant g.
Proof.
  induction 1 as [ | heap_ok blocksize g _ IH | g _ IH | v g _ IH
                 | e f vol g _ IH | buffer n sr g g' buffer' _ IH Hrun].
  - intros Htx. discriminate Htx.
  - unfold transmit_invariant, SidetoneGen_Initialize in *.
    destruct heap_ok; simpl; [intros Htx; discriminate Htx | exact IH].
  - intros Htx. discriminate Htx.
  - unfold transmit_invariant, SidetoneGen_SetTXActive in *.
    destruct (Z.eqb_spec (g_tx_active g) v); [exact IH|].
    destruct (Z.eqb_spec v 1); simpl; [auto | congruence].
  - exact IH.
  - exact (Generate_invariant _ _ _ _ _ _ Hrun IH).
Qed.

(** In a reachable idle state the stored transmit state is not 1: the next
    [SetTXActive 1] is a transition. *)
Lemma idle_not_transmitting (g : globals D) :
  reachable sin g -> g_fade_state g = 0 -> g_tx_active g <> 1.
Proof.
  intros Hreach Hidle Htx.
  destruct (reachable_invariant g Hreach Htx) as [Hs | Hs]; congruence.
Qed.

(** ** The fade ramps *)

(** C2 (as amended).  A fade-out entered with counter 0 applies the envelope
    1 - i/48 at every frame i < 47; at frame 47, the frame on which the
    counter reaches 48, the envelope is forced to 0.0 and the state becomes
    idle; at frame 48 the state is idle and the envelope is 0.0. *)
Theorem fade_out_ramp (delta : D) (g : globals D) :
  g_fade_state g = 3 -> g_fade_counter g = 0 ->
  (forall i : nat, (i < 47)%nat ->
     envelope_at i delta g =
       dsub d_1 (ddiv (of_int (Z.of_nat i)) (of_int FADE_SAMPLES)) /\
     g_fade_state (frames i delta g) = 3) /\
  envelope_at 47 delta g = d_0 /\
  g_fade_state (frames 48 delta g) = 0 /\
  envelope_at 48 delta g = d_0.
Proof.
  intros Hs Hc.
  pose proof (ramp_frames delta 3 g (or_intror eq_refl) Hs Hc) as Hramp.
  assert (Hframe : forall i : nat, (i < 48)%nat ->
            envelope_at i delta g =
              (if Z.of_nat i + 1 >=? 48 then d_0
               else dsub d_1 (ddiv (of_int (Z.of_nat i)) (of_int FADE_SAMPLES)))
            /\ g_fade_state (frames (S i) delta g) =
                 (if Z.of_nat i + 1 >=? 48 then 0 else 3)).
  { intros i Hi. destruct (Hramp i Hi) as [Hsi Hci].
    destruct (fade_out_frame (frames i delta g)) as (He & _ & Hn);
      [assumption | unfold FADE_SAMPLES; lia |].
    unfold envelope_at. rewrite He, frames_succ.
    destruct (frame_next_fade delta (frames i delta g)) as [-> _].
    rewrite Hn, Hci. unfold FADE_SAMPLES. split; reflexivity. }
  assert (Hidle : g_fade_state (frames 48 delta g) = 0).
  { destruct (Hframe 47%nat) as [_ ->]; [lia | reflexivity]. }
  repeat split.
  - destruct (Hframe i) as [-> _]; [lia|].
    destruct (Z.geb_spec (Z.of_nat i + 1) 48); [lia | reflexivity].
  - apply Hramp. lia.
  - destruct (Hframe 47%nat) as [-> _]; [lia | reflexivity].
  - exact Hidle.
  - unfold envelope_at. now rewrite idle_frame.
Qed.

(** C3.  After a transmit-active transition (the stored transmit state was
    not 1, which [idle_not_transmitting] shows of every reachable idle
    state), frame i < 48 applies the envelope i/48; after 48 frames the state
    is active (sustain) and frame 48 applies the envelope 1.0.  FADE_SAMPLES
    is 48. *)
Theorem fade_in_ramp (delta : D) (g : globals D) :
  g_tx_active g <> 1 ->
  FADE_SAMPLES = 48 /\
  g_fade_state (SidetoneGen_SetTXActive 1 g) = 1 /\
  (forall i : nat, (i < 48)%nat ->
     envelope_at i delta (SidetoneGen_SetTXActive 1 g) =
       ddiv (of_int (Z.of_nat i)) (of_int FADE_SAMPLES)) /\
  g_fade_state (frames 48 delta (SidetoneGen_SetTXActive 1 g)) = 2 /\
  envelope_at 48 delta (SidetoneGen_SetTXActive 1 g) = d_1.
Proof.
  intros Htx. destruct (SetTXActive_on g Htx) as (Hs & Hc & _).
  set (g1 := SidetoneGen_SetTXActive 1 g) in *.
  assert (Hsustain : g_fade_state (frames 48 delta g1) = 2).
  { destruct (ramp_frames delta 1 g1 (or_introl eq_refl) Hs Hc 47%nat)
      as [Hs47 Hc47]; [lia|].
    rewrite frames_succ.
    destruct (frame_next_fade delta (frames 47 delta g1)) as [-> _].
    destruct (fade_in_frame (frames 47 delta g1)) as (_ & _ & ->);
      [assumption | unfold FADE_SAMPLES; lia |].
    rewrite Hc47. reflexivity. }
  split; [reflexivity|]. split; [exact Hs|]. split; [|split].
  - apply fade_in_envelope; assumption.
  - exact Hsustain.
  - unfold envelope_at. now rewrite sustain_frame.
Qed.

(** ** Generation *)

(** C4.  With the frequency or the volume provider missing (in particular
    with no provider registered), an initialised generator and a block of at
    least 2n samples, the call zeroes the first 2n samples, leaves the rest of
    the block alone and returns the generator state unchanged: phase, fade
    state and fade counter included. *)
Theorem Generate_silence_without_providers (out : list D)
    (nsamples samplerate : Z) (g : globals D) :
  is_Some (g_buffer g) ->
  g_getFreq g = None \/ g_getVolume g = None ->
  0 <= nsamples ->
  2 * nsamples <= Z.of_nat (length out) ->
  2 * nsamples <= CInt.INT_MAX ->
  SidetoneGen_Generate sin (Some out) nsamples samplerate g =
    Some (g, Some (replicate (Z.to_nat (2 * nsamples)) d_0
                     ++ drop (Z.to_nat (2 * nsamples)) out)).
Proof.
  intros [b Hb] Hprov Hn Hlen Hmax.
  assert (Hbytes :
    CInt.size_mul (CInt.to_size_t (CInt.mul nsamples 2)) CInt.sizeof_double
      = 8 * (2 * nsamples)).
  { unfold CInt.size_mul, CInt.to_size_t, CInt.mul, CInt.sizeof_double,
      CInt.SIZE_MODULUS.
    rewrite wrap_in_range by (unfold CInt.INT_MIN, CInt.INT_MAX in *; lia).
    unfold CInt.INT_MAX in Hmax.
    rewrite (Z.mod_small (nsamples * 2)) by lia.
    rewrite Z.mod_small by lia. lia. }
  assert (Hset :
    memset_zero out (8 * (2 * nsamples)) =
      Some (replicate (Z.to_nat (2 * nsamples)) d_0
              ++ drop (Z.to_nat (2 * nsamples)) out)).
  { unfold memset_zero, CInt.sizeof_double.
    destruct (Z.leb_spec (8 * (2 * nsamples)) (8 * Z.of_nat (length out)));
      [|lia].
    replace (8 * (2 * nsamples) / 8) with (2 * nsamples)
      by (rewrite (Z.mul_comm 8 (2 * nsamples)), Z.div_mul; lia).
    reflexivity. }
  unfold SidetoneGen_Generate. rewrite Hb.
  destruct Hprov as [Hf | Hv].
  - rewrite Hf, Hbytes, Hset. reflexivity.
  - rewrite Hv, Hbytes, Hset. destruct (g_getFreq g); reflexivity.
Qed.

(** C6.  In a call that returns, with both providers registered, frame i
    leaves the same value at positions 2i and 2i+1 of the block:
    sin(phase_i) * volume * envelope_i, where phase_i is the phase before the
    increment of frame i, envelope_i the envelope of frame i, and volume the
    value the provider returned once, before the loop.  The returned state is
    the state after nsamples frames, and the block keeps its length. *)
Theorem Generate_stereo_samples (out out' : list D) (nsamples samplerate : Z)
    (g g' : globals D) (getFreq : unit -> Z) (getVolume : unit -> D) :
  is_Some (g_buffer g) ->
  g_getFreq g = Some getFreq -> g_getVolume g = Some getVolume ->
  SidetoneGen_Generate sin (Some out) nsamples samplerate g
    = Some (g', Some out') ->
  let volume := getVolume tt in
  let delta := delta_phase_of (getFreq tt) samplerate in
  g' = frames (Z.to_nat nsamples) delta g /\
  length out' = length out /\
  forall i : nat, Z.of_nat i < nsamples ->
    out' !! (2 * i)%nat =
      Some (dmul (dmul (sin (phase_at i delta g)) volume)
                 (envelope_at i delta g)) /\
    out' !! (2 * i + 1)%nat = out' !! (2 * i)%nat.
Proof.
  intros Hb Hf Hv Hrun volume delta.
  apply (Generate_is_loop out out' _ _ g g' getFreq getVolume Hb Hf Hv) in Hrun.
  apply gen_loop_inv in Hrun as (Hg & Hlen & _ & Hsamples);
    [|unfold CInt.INT_MAX; lia].
  split; [exact Hg|]. split; [exact Hlen|].
  intros i Hi. destruct (Hsamples i) as [HL HR]; [lia|].
  replace (Z.to_nat (2 * (0 + Z.of_nat i))) with (2 * i)%nat in HL by lia.
  replace (Z.to_nat (2 * (0 + Z.of_nat i) + 1)) with (2 * i + 1)%nat in HR by lia.
  rewrite HR, HL. split; reflexivity.
Qed.

(** C9.  With a NULL output pointer, or with no internal buffer (before a
    successful initialise), the call returns at once: the block is what the
    caller passed and the generator state is unchanged. *)
Theorem Generate_guard_noop (buffer : option (list D))
    (nsamples samplerate : Z) (g : globals D) :
  buffer = None \/ g_buffer g = None ->
  SidetoneGen_Generate sin buffer nsamples samplerate g = Some (g, buffer).
Proof.
  unfold SidetoneGen_Generate. intros [-> | ->].
  - reflexivity.
  - destruct buffer; reflexivity.
Qed.

(** ** Transmit state *)

(** C7.  The activity query is non-zero exactly when the stored transmit
    state is non-zero and a registered enabled-provider returns non-zero; it
    is 0 with no enabled-provider, 0 whenever the transmit state is 0, and
    does not read the phase, the fade state or the fade counter. *)
Theorem IsActive_spec (g : globals D) :
  (SidetoneGen_IsActive g <> 0 <->
     g_tx_active g <> 0 /\
     exists getEnabled, g_getEnabled g = Some getEnabled /\ getEnabled tt <> 0) /\
  (g_getEnabled g = None -> SidetoneGen_IsActive g = 0) /\
  (g_tx_active g = 0 -> SidetoneGen_IsActive g = 0) /\
  (forall (p : D) (s c : Z),
     SidetoneGen_IsActive (set_phase p (set_fade_state s (set_fade_counter c g)))
       = SidetoneGen_IsActive g).
Proof.
  unfold SidetoneGen_IsActive. repeat split.
  - intros Hact. destruct (Z.eqb_spec (g_tx_active g) 0); congruence.
  - destruct (Z.eqb_spec (g_tx_active g) 0); [congruence|].
    destruct (g_getEnabled g) as [f|]; [|congruence].
    exists f. split; [reflexivity | assumption].
  - intros (Htx & f & Hf & Hnz).
    destruct (Z.eqb_spec (g_tx_active g) 0); [contradiction|].
    rewrite Hf. exact Hnz.
  - intros ->. destruct (g_tx_active g =? 0); reflexivity.
  - intros ->. reflexivity.
Qed.

(** C8.  After [SetTXActive v] the stored transmit state is v, and a second
    call with the same v returns the state of the first call unchanged: no
    second phase reset, fade restart, counter reset or debug line.  In
    particular for v = 1. *)
Theorem SetTXActive_idempotent (v : Z) (g : globals D) :
  g_tx_active (SidetoneGen_SetTXActive v g) = v /\
  SidetoneGen_SetTXActive v (SidetoneGen_SetTXActive v g)
    = SidetoneGen_SetTXActive v g /\
  SidetoneGen_SetTXActive 1 (SidetoneGen_SetTXActive 1 g)
    = SidetoneGen_SetTXActive 1 g.
Proof.
  split; [apply SetTXActive_stores|].
  split; apply SetTXActive_same, SetTXActive_stores.
Qed.

(** C10.  A call with v neither 0 nor 1 that changes the stored transmit
    state takes the else branch: fade state 3 (fade-out), counter 0, phase
    kept, and v stored; the activity query then returns what the
    enabled-provider returns, so it can be non-zero while the envelope fades
    out. *)
Theorem SetTXActive_nonboolean (v : Z) (g : globals D) :
  v <> 0 -> v <> 1 -> g_tx_active g <> v ->
  g_fade_state (SidetoneGen_SetTXActive v g) = 3 /\
  g_fade_counter (SidetoneGen_SetTXActive v g) = 0 /\
  g_phase (SidetoneGen_SetTXActive v g) = g_phase g /\
  g_tx_active (SidetoneGen_SetTXActive v g) = v /\
  SidetoneGen_IsActive (SidetoneGen_SetTXActive v g) =
    match g_getEnabled g with
    | Some getEnabled => getEnabled tt
    | None => 0
    end.
Proof.
  intros Hv0 Hv1 Hchange.
  unfold SidetoneGen_SetTXActive, SidetoneGen_IsActive.
  destruct (Z.eqb_spec (g_tx_active g) v); [contradiction|].
  destruct (Z.eqb_spec v 1); [contradiction|]. simpl.
  destruct (Z.eqb_spec v 0); [contradiction|].
  repeat split; reflexivity.
Qed.

End Properties.

(** ** The fade ramps in double precision *)

Section Binary64.

Local Open Scope float_scope.

(** Every fade-in envelope value i/48, i < 48, is strictly below 1.0. *)
Lemma fade_in_value_below_one (i : nat) :
  (i < 48)%nat ->
  PrimFloat.ltb (double_of_int (Z.of_nat i) / double_of_int 48) 1 = true.
Proof.
  intros Hi.
  assert (Hall :
    forallb (fun j => PrimFloat.ltb
                        (double_of_int (Z.of_nat j) / double_of_int 48) 1)
            (seq 0 48) = true) by (vm_compute; reflexivity).
  rewrite forallb_forall in Hall. apply Hall. apply in_seq. lia.
Qed.

(** C1 (as amended).  When the transmit state is switched on and, after k
    frames with k < 48, switched off again, the fade-out is a fresh ramp:
    fade state 3, counter 0, and the first fade-out frame applies the
    envelope 1.0.  For k > 0 the last fade-in envelope was (k-1)/48, strictly
    below it: the envelope jumps to 1.0 and does not continue from the
    partial value. *)
Theorem interrupted_fade_restarts (delta delta' : float) (k : nat)
    (g : globals float) :
  g_tx_active g <> 1%Z -> (k < 48)%nat ->
  let g1 := SidetoneGen_SetTXActive 1 g in
  let g2 := SidetoneGen_SetTXActive 0 (frames k delta g1) in
  g_fade_state g2 = 3%Z /\
  g_fade_counter g2 = 0%Z /\
  envelope_at 0 delta' g2 = 1 /\
  ((0 < k)%nat ->
   envelope_at (k - 1) delta g1 =
     double_of_int (Z.of_nat (k - 1)) / double_of_int 48 /\
   PrimFloat.ltb (envelope_at (k - 1) delta g1) (envelope_at 0 delta' g2)
     = true).
Proof.
  intros Htx Hk g1 g2.
  destruct (SetTXActive_on g Htx) as (Hs1 & Hc1 & _). fold g1 in Hs1, Hc1.
  assert (Hon : g_tx_active (frames k delta g1) <> 0%Z).
  { rewrite frames_tx_active. unfold g1. rewrite SetTXActive_stores. lia. }
  destruct (SetTXActive_off 0 (frames k delta g1)) as (Hs2 & Hc2 & _);
    [lia | exact Hon |]. fold g2 in Hs2, Hc2.
  assert (Hfirst : envelope_at 0 delta' g2 = 1).
  { rewrite (fade_out_first_envelope delta' g2 Hs2 Hc2). reflexivity. }
  split; [exact Hs2|]. split; [exact Hc2|]. split; [exact Hfirst|].
  intros Hpos.
  assert (Hlast : envelope_at (k - 1) delta g1 =
                    double_of_int (Z.of_nat (k - 1)) / double_of_int 48).
  { rewrite (fade_in_envelope delta g1 Hs1 Hc1) by lia. reflexivity. }
  split; [exact Hlast|].
  rewrite Hlast, Hfirst. apply fade_in_value_below_one. lia.
Qed.

End Binary64.

(** ** The oscillator in double precision

    Facts about IEEE addition and subtraction of non-negative doubles, read
    off SpecFloat: a rounded sum or difference never passes a double that
    bounds the exact result. *)

(** SpecFloat is written with Corelib's integer operations. *)
Ltac to_binint :=
  change IntDef.Z.add with Z.add in *;
  change IntDef.Z.sub with Z.sub in *;
  change IntDef.Z.mul with Z.mul in *;
  change IntDef.Z.opp with Z.opp in *;
  change IntDef.Z.max with Z.max in *;
  change IntDef.Z.min with Z.min in *;
  change IntDef.Z.leb with Z.leb in *;
  change IntDef.Z.ltb with Z.ltb in *;
  change IntDef.Z.eqb with Z.eqb in *;
  change IntDef.Z.compare with Z.compare in *;
  change IntDef.Z.even with Z.even in *.

Lemma pow2_pos (n : Z) : 0 <= n -> 0 < 2 ^ n.
Proof. intros. apply Z.pow_pos_nonneg; lia. Qed.

Lemma pow2_succ (n : Z) : 0 <= n -> 2 ^ (n + 1) = 2 * 2 ^ n.
Proof. intros. rewrite Z.pow_add_r by lia. lia. Qed.

Lemma pow2_le (a b : Z) : 0 <= a <= b -> 2 ^ a <= 2 ^ b.
Proof. intros. apply Z.pow_le_mono_r; lia. Qed.

Lemma pow2_split (a b : Z) : 0 <= a -> 0 <= b -> 2 ^ (a + b) = 2 ^ a * 2 ^ b.
Proof. intros. apply Z.pow_add_r; lia. Qed.

Lemma digits2_bounds (m : positive) :
  2 ^ (Zpos (digits2_pos m) - 1) <= Zpos m < 2 ^ Zpos (digits2_pos m).
Proof.
  induction m as [m IH | m IH |]; cbn [digits2_pos].
  - rewrite Pos2Z.inj_succ.
    replace (Z.succ (Zpos (digits2_pos m)) - 1) with (Zpos (digits2_pos m) - 1 + 1) by lia.
    rewrite pow2_succ by lia. unfold Z.succ. rewrite pow2_succ by lia. lia.
  - rewrite Pos2Z.inj_succ.
    replace (Z.succ (Zpos (digits2_pos m)) - 1) with (Zpos (digits2_pos m) - 1 + 1) by lia.
    rewrite pow2_succ by lia. unfold Z.succ. rewrite pow2_succ by lia. lia.
  - simpl. lia.
Qed.

(** What validity says of the mantissa and exponent of a finite double. *)
Lemma bounded_inv (m : positive) (e : Z) :
  SpecFloat.bounded prec emax m e = true ->
  -1074 <= e <= 971 /\ Zpos m < 2 ^ 53 /\ (-1074 < e -> 2 ^ 52 <= Zpos m).
Proof.
  unfold SpecFloat.bounded, canonical_mantissa, fexp, emin, prec, emax.
  intros Hb. to_binint. apply andb_true_iff in Hb as [Hc He].
  apply Z.eqb_eq in Hc. apply Z.leb_le in He.
  assert (Hd : Zpos (digits2_pos m) <= 53 /\ -1074 <= e <= 971 /\
               (-1074 < e -> Zpos (digits2_pos m) = 53)) by lia.
  destruct Hd as (Hd & Hr & Hd53).
  pose proof (digits2_bounds m) as [Hlo Hhi].
  split; [exact Hr|]. split.
  - eapply Z.lt_le_trans; [exact Hhi|]. apply pow2_le. lia.
  - intros Hn. rewrite (Hd53 Hn) in Hlo. exact Hlo.
Qed.

Lemma scaled_pos (m : positive) (e : Z) : -1074 <= e -> 0 < scaled m e.
Proof. intros. unfold scaled. pose proof (pow2_pos (e + 1074)). nia. Qed.

(** Valid finite doubles are ordered by exponent first. *)
Lemma scaled_lt_exp (m1 m2 : positive) (e1 e2 : Z) :
  SpecFloat.bounded prec emax m1 e1 = true -> SpecFloat.bounded prec emax m2 e2 = true ->
  e1 < e2 -> scaled m1 e1 < scaled m2 e2.
Proof.
  intros H1 H2 He.
  destruct (bounded_inv _ _ H1) as (He1 & Hm1 & _).
  destruct (bounded_inv _ _ H2) as (He2 & _ & Hm2).
  specialize (Hm2 ltac:(lia)). unfold scaled.
  replace (e2 + 1074) with ((e1 + 1074) + (e2 - e1 - 1) + 1) by lia.
  rewrite pow2_succ, (pow2_split (e1 + 1074) (e2 - e1 - 1)) by lia.
  pose proof (pow2_pos (e1 + 1074) ltac:(lia)).
  pose proof (pow2_pos (e2 - e1 - 1) ltac:(lia)).
  change (2 ^ 53) with (2 * 2 ^ 52) in Hm1.
  assert (Zpos m1 * 2 ^ (e1 + 1074) < 2 * 2 ^ 52 * 2 ^ (e1 + 1074)) by nia.
  assert (2 ^ 52 * 2 ^ (e1 + 1074) <= Zpos m2 * 2 ^ (e1 + 1074)) by nia.
  nia.
Qed.

Lemma SFcompare_value (x y : spec_float) :
  valid_binary x = true -> valid_binary y = true ->
  nonneg_finite x = true -> nonneg_finite y = true ->
  SFcompare x y = Some (value x ?= value y).
Proof.
  intros Vx Vy Nx Ny.
  destruct x as [sx | sx | | sx mx ex]; try discriminate Nx;
  destruct y as [sy | sy | | sy my ey]; try discriminate Ny.
  - reflexivity.
  - destruct sy; [discriminate Ny|]. cbn [SFcompare value].
    simpl in Vy. destruct (bounded_inv _ _ Vy) as (He & _).
    pose proof (scaled_pos my ey ltac:(lia)).
    f_equal. symmetry. apply Z.compare_lt_iff. lia.
  - destruct sx; [discriminate Nx|]. cbn [SFcompare value].
    simpl in Vx. destruct (bounded_inv _ _ Vx) as (He & _).
    pose proof (scaled_pos mx ex ltac:(lia)).
    f_equal. symmetry. apply Z.compare_gt_iff. lia.
  - destruct sx; [discriminate Nx|]. destruct sy; [discriminate Ny|].
    cbn [SFcompare value]. simpl in Vx, Vy. f_equal. to_binint.
    destruct (Z.compare_spec ex ey) as [-> | Hlt | Hgt].
    + unfold scaled.
      destruct (bounded_inv _ _ Vy) as (He & _).
      pose proof (pow2_pos (ey + 1074) ltac:(lia)).
      change (PosDef.Pos.compare_cont Eq mx my) with (Zpos mx ?= Zpos my).
      rewrite (Z.mul_comm (Zpos mx)), (Z.mul_comm (Zpos my)).
      apply Zmult_compare_compat_l. lia.
    + symmetry. apply Z.compare_lt_iff. now apply scaled_lt_exp.
    + symmetry. apply Z.compare_gt_iff. now apply scaled_lt_exp.
Qed.

(** ** Right shifts keep a floor *)

Lemma shr_1_inv (M k : Z) (mrs : shr_record) :
  0 <= k -> shr_inv M k mrs -> shr_inv M (k + 1) (shr_1 mrs).
Proof.
  intros Hk (Hm & Hb & Hf). destruct mrs as [m r s].
  cbn [shr_m shr_r shr_s] in *. unfold shr_inv.
  rewrite pow2_succ by lia. pose proof (pow2_pos k Hk) as HP.
  set (P := 2 ^ k) in *. clearbody P.
  destruct m as [|[p|p|]|p]; cbn [shr_1 shr_m shr_r shr_s orb];
    try change (Zpos p~1) with (2 * Zpos p + 1) in *;
    try change (Zpos p~0) with (2 * Zpos p) in *;
    (split; [lia|]); (split; [lia|]); intros Hrs;
    try (apply Hf in Hrs); lia.
Qed.

Lemma iter_pos_shr_inv (M : Z) (p : positive) : forall (k : Z) (mrs : shr_record),
  0 <= k -> shr_inv M k mrs ->
  shr_inv M (k + Zpos p) (SpecFloat.iter_pos shr_1 p mrs).
Proof.
  induction p as [p IH | p IH |]; intros k mrs Hk Hinv; cbn [SpecFloat.iter_pos].
  - replace (k + Zpos p~1) with (k + 1 + Zpos p + Zpos p) by lia.
    apply IH; [lia|]. apply IH; [lia|]. now apply shr_1_inv.
  - replace (k + Zpos p~0) with (k + Zpos p + Zpos p) by lia.
    apply IH; [lia|]. now apply IH.
  - now apply shr_1_inv.
Qed.

Lemma shr_exact_inv (M n e : Z) :
  0 <= M -> 0 <= n ->
  shr_inv M n (fst (shr (shr_record_of_loc M loc_Exact) e n)) /\
  snd (shr (shr_record_of_loc M loc_Exact) e n) = e + n.
Proof.
  intros HM Hn.
  assert (H0 : shr_inv M 0 (shr_record_of_loc M loc_Exact)).
  { unfold shr_inv. cbn. split; [lia|]. split; [lia|]. discriminate. }
  destruct n as [|p|p]; cbn [shr fst snd]; try lia.
  - split; [exact H0 | lia].
  - split; [|reflexivity].
    apply (iter_pos_shr_inv M p 0 _ ltac:(lia) H0).
Qed.

Lemma shr_nonpos (mrs : shr_record) (e n : Z) :
  n <= 0 -> shr mrs e n = (mrs, e).
Proof. destruct n; [reflexivity | lia | reflexivity]. Qed.

Lemma round_nearest_even_cases (mrs : shr_record) :
  round_nearest_even (shr_m mrs) (loc_of_shr_record mrs) = shr_m mrs \/
  (round_nearest_even (shr_m mrs) (loc_of_shr_record mrs) = shr_m mrs + 1 /\
   shr_r mrs = true).
Proof.
  destruct mrs as [m [|] [|]]; cbn [round_nearest_even loc_of_shr_record shr_m shr_r];
    to_binint; auto.
  destruct (Z.even m); auto.
Qed.

Lemma fexp_eq (x : Z) : fexp prec emax x = Z.max (x - 53) (-1074).
Proof. reflexivity. Qed.

Lemma Zdigits2_bounds (m : Z) :
  0 < m -> 2 ^ (Zdigits2 m - 1) <= m < 2 ^ Zdigits2 m.
Proof.
  destruct m as [|p|p]; try lia. intros _. apply digits2_bounds.
Qed.

(** A quotient with 53 digits or more cannot sit below a double whose
    exponent is smaller. *)
Lemma above_smaller_exponent (q e : Z) (mB : positive) (eB : Z) :
  SpecFloat.bounded prec emax mB eB = true ->
  2 ^ 52 <= q -> -1074 <= eB < e ->
  scaled mB eB < q * 2 ^ (e + 1074).
Proof.
  intros HB Hq He. destruct (bounded_inv _ _ HB) as (_ & HmB & _).
  unfold scaled.
  replace (e + 1074) with ((eB + 1074) + (e - eB - 1) + 1) by lia.
  rewrite pow2_succ, (pow2_split (eB + 1074) (e - eB - 1)) by lia.
  pose proof (pow2_pos (eB + 1074) ltac:(lia)) as HE.
  pose proof (pow2_pos (e - eB - 1) ltac:(lia)) as HJ.
  set (E := 2 ^ (eB + 1074)) in *. set (J := 2 ^ (e - eB - 1)) in *.
  clearbody E J. change (2 ^ 53) with (2 * 2 ^ 52) in HmB.
  set (C := 2 ^ 52) in *. clearbody C.
  assert (Zpos mB * E < 2 * C * E) by nia.
  assert (2 * C * E <= 2 * q * E) by nia.
  assert (2 * q * E <= 2 * q * (E * J)) by nia.
  lia.
Qed.

(** A quotient above a double's value steps up to at most the next double. *)
Lemma next_multiple (q e : Z) (mB : positive) (eB : Z) :
  -1074 <= e <= eB ->
  q * 2 ^ (e + 1074) < scaled mB eB ->
  (q + 1) * 2 ^ (e + 1074) <= scaled mB eB.
Proof.
  intros He Hlt. unfold scaled in *.
  assert (Hsplit : 2 ^ (eB + 1074) = 2 ^ (e + 1074) * 2 ^ (eB - e)).
  { rewrite <- pow2_split by lia. f_equal. lia. }
  rewrite Hsplit in *. clear Hsplit.
  pose proof (pow2_pos (e + 1074) ltac:(lia)) as HE.
  pose proof (pow2_pos (eB - e) ltac:(lia)) as HJ.
  set (E := 2 ^ (e + 1074)) in *. set (J := 2 ^ (eB - e)) in *.
  clearbody E J.
  assert (q < Zpos mB * J) by nia.
  assert ((q + 1) * E <= Zpos mB * J * E) by nia.
  lia.
Qed.

Lemma binary_round_aux_le (mx : positive) (ex : Z) (mB : positive) (eB : Z) :
  -1074 <= ex ->
  ex <= fexp prec emax (Zpos (digits2_pos mx) + ex) ->
  SpecFloat.bounded prec emax mB eB = true ->
  Zpos mx * 2 ^ (ex + 1074) <= scaled mB eB ->
  nonneg_finite (binary_round_aux prec emax false (Zpos mx) ex loc_Exact) = true /\
  value (binary_round_aux prec emax false (Zpos mx) ex loc_Exact) <= scaled mB eB.
Proof.
  intros Hex Hk HB Hle.
  destruct (bounded_inv _ _ HB) as (HeB & HmB & _).
  pose proof (digits2_bounds mx) as [Hdlo Hdhi].
  rewrite fexp_eq in Hk.
  unfold binary_round_aux, shr_fexp. to_binint.
  change (Zdigits2 (Zpos mx)) with (Zpos (digits2_pos mx)). rewrite !fexp_eq.
  set (d := Zpos (digits2_pos mx)) in *.
  set (k1 := Z.max (d + ex - 53) (-1074) - ex).
  assert (Hk1 : 0 <= k1) by lia.
  destruct (shr_exact_inv (Zpos mx) k1 ex ltac:(lia) Hk1) as [Hinv1 He1].
  destruct (shr (shr_record_of_loc (Zpos mx) loc_Exact) ex k1) as [rec1 e1].
  cbn [fst snd] in Hinv1, He1. subst e1.
  destruct Hinv1 as (Hq0 & Hqb & Hqf).
  set (q := shr_m rec1) in *.
  pose proof (pow2_pos k1 Hk1) as HK1.
  pose proof (pow2_pos (ex + 1074) ltac:(lia)) as HP.
  assert (Hsplit1 : 2 ^ (ex + k1 + 1074) = 2 ^ k1 * 2 ^ (ex + 1074)).
  { rewrite <- pow2_split by lia. f_equal. lia. }
  (* the quotient has at most 53 digits, and exactly 53 when bits were dropped *)
  assert (Hq52 : 53 <= d -> 2 ^ 52 <= q).
  { intros Hd. assert (k1 = d - 53) as Hk1d by lia.
    assert (Hpow : 2 ^ (d - 1) = 2 ^ 52 * 2 ^ k1).
    { rewrite <- pow2_split by lia. f_equal. lia. }
    rewrite Hpow in Hdlo. set (K := 2 ^ k1) in *. clearbody K.
    set (C := 2 ^ 52) in *. clearbody C. nia. }
  assert (Hqs : 2 ^ k1 * q < Zpos mx -> 53 <= d).
  { intros Hlt. destruct (Z_lt_ge_dec d 53) as [Hd|Hd]; [|lia].
    assert (k1 = 0) as Hk0 by lia. rewrite Hk0 in *. simpl in Hqb, Hlt. lia. }
  (* the rounded mantissa *)
  set (m1 := round_nearest_even q (loc_of_shr_record rec1)).
  assert (Hm1 : q <= m1 /\ m1 * 2 ^ (ex + k1 + 1074) <= scaled mB eB).
  { destruct (round_nearest_even_cases rec1) as [Hr | [Hr Hflag]];
      fold q in Hr; fold m1 in Hr; rewrite Hr.
    - split; [lia|]. rewrite Hsplit1.
      set (K := 2 ^ k1) in *. set (P := 2 ^ (ex + 1074)) in *. clearbody K P.
      assert (q * (K * P) <= Zpos mx * P) by nia. lia.
    - split; [lia|].
      assert (Hstrict : 2 ^ k1 * q < Zpos mx) by (apply Hqf; rewrite Hflag; reflexivity).
      pose proof (Hq52 (Hqs Hstrict)) as Hq.
      assert (Hbelow : q * 2 ^ (ex + k1 + 1074) < scaled mB eB).
      { rewrite Hsplit1.
        set (K := 2 ^ k1) in *. set (P := 2 ^ (ex + 1074)) in *. clearbody K P.
        assert (q * (K * P) < Zpos mx * P) by nia. lia. }
      destruct (Z_lt_ge_dec eB (ex + k1)) as [Hlow | Hhigh].
      + pose proof (above_smaller_exponent q (ex + k1) mB eB HB Hq ltac:(lia)).
        lia.
      + apply next_multiple; [lia | exact Hbelow]. }
  destruct Hm1 as [Hqm1 Hm1B]. clearbody m1.
  (* the second normalisation *)
  rewrite (fexp_eq (Zdigits2 m1 + (ex + k1))).
  set (k2 := Z.max (Zdigits2 m1 + (ex + k1) - 53) (-1074) - (ex + k1)).
  assert (Hfinal : exists q2 e2,
            shr (shr_record_of_loc m1 loc_Exact) (ex + k1) k2
              = (Build_shr_record q2 (shr_r (fst (shr (shr_record_of_loc m1 loc_Exact) (ex + k1) k2)))
                                     (shr_s (fst (shr (shr_record_of_loc m1 loc_Exact) (ex + k1) k2))), e2) /\
            0 <= q2 /\ -1074 <= e2 /\
            q2 * 2 ^ (e2 + 1074) <= scaled mB eB /\
            (971 < e2 -> 2 ^ 52 <= q2)).
  { destruct (Z_le_gt_dec k2 0) as [Hk2 | Hk2].
    - rewrite shr_nonpos by exact Hk2. exists m1, (ex + k1). cbn [fst shr_r shr_s shr_record_of_loc].
      split; [reflexivity|]. split; [lia|]. split; [lia|]. split; [exact Hm1B|].
      intros Hbig. assert (53 <= d) by lia. specialize (Hq52 ltac:(lia)). lia.
    - assert (Hm1pos : 0 < m1).
      { destruct (Z_lt_ge_dec 0 m1) as [Hp|Hn]; [exact Hp|].
        assert (m1 = 0) as -> by lia. unfold k2 in Hk2. simpl Zdigits2 in Hk2. lia. }
      destruct (shr_exact_inv m1 k2 (ex + k1) ltac:(lia) ltac:(lia)) as [Hinv2 He2].
      destruct (shr (shr_record_of_loc m1 loc_Exact) (ex + k1) k2) as [[q2 r2 s2] e2].
      unfold shr_inv in Hinv2. cbn [fst snd shr_m shr_r shr_s] in *. subst e2.
      destruct Hinv2 as (Hq20 & Hq2b & _).
      exists q2, (ex + k1 + k2). split; [reflexivity|]. split; [lia|]. split; [lia|].
      pose proof (pow2_pos k2 ltac:(lia)) as HK2.
      assert (Hsplit2 : 2 ^ (ex + k1 + k2 + 1074) = 2 ^ k2 * 2 ^ (ex + k1 + 1074)).
      { rewrite <- pow2_split by lia. f_equal. lia. }
      pose proof (pow2_pos (ex + k1 + 1074) ltac:(lia)) as HP1.
      split.
      + rewrite Hsplit2. set (K := 2 ^ k2) in *. set (P := 2 ^ (ex + k1 + 1074)) in *.
        clearbody K P. assert (q2 * (K * P) <= m1 * P) by nia. lia.
      + intros _. pose proof (Zdigits2_bounds m1 Hm1pos) as [Hlo _].
        assert (k2 = Zdigits2 m1 - 53) as Hk2d by lia.
        assert (Hpow : 2 ^ (Zdigits2 m1 - 1) = 2 ^ 52 * 2 ^ k2).
        { rewrite <- pow2_split by lia. f_equal. lia. }
        rewrite Hpow in Hlo. set (K := 2 ^ k2) in *. clearbody K.
        set (C := 2 ^ 52) in *. clearbody C. nia. }
  destruct Hfinal as (q2 & e2 & -> & Hq20 & He2 & Hq2B & Hq2big).
  cbn [shr_m].
  destruct q2 as [|p2|p2]; [split; [reflexivity | cbn; pose proof (scaled_pos mB eB ltac:(lia)); lia] | | lia].
  change (emax - prec) with 971.
  destruct (Z.leb_spec e2 971) as [Hfin | Hinf].
  - split; [reflexivity | exact Hq2B].
  - exfalso. specialize (Hq2big ltac:(lia)).
    pose proof (above_smaller_exponent (Zpos p2) e2 mB eB HB Hq2big ltac:(lia)). lia.
Qed.

Lemma iter_xO_value (m : positive) (n : positive) :
  Zpos (Pos.iter xO m n) = Zpos m * 2 ^ Zpos n /\
  Zpos (digits2_pos (Pos.iter xO m n)) = Zpos (digits2_pos m) + Zpos n.
Proof.
  induction n as [|n [IHv IHd]] using Pos.peano_ind.
  - cbn [Pos.iter digits2_pos]. split; [lia|]. rewrite Pos2Z.inj_succ. lia.
  - rewrite Pos.iter_succ. cbn [digits2_pos].
    rewrite Pos2Z.inj_succ, Pos2Z.inj_xO, IHv, Pos2Z.inj_succ, IHd.
    unfold Z.succ. rewrite pow2_succ by lia. split; lia.
Qed.

(** Aligning a mantissa to a smaller exponent keeps the value. *)
Lemma shl_align_value (m : positive) (e e' : Z) :
  -1074 <= e' <= e ->
  snd (shl_align m e e') = e' /\
  Zpos (fst (shl_align m e e')) * 2 ^ (e' + 1074) = scaled m e /\
  Zpos (digits2_pos (fst (shl_align m e e'))) + e'
    = Zpos (digits2_pos m) + e.
Proof.
  intros He. unfold shl_align, scaled. to_binint.
  destruct (e' - e) as [|n|n] eqn:Hd; try lia; cbn [fst snd].
  - assert (e' = e) as -> by lia. auto.
  - change (PosDef.Pos.iter xO m n) with (Pos.iter xO m n).
    destruct (iter_xO_value m n) as [-> ->].
    split; [reflexivity|]. split; [|lia].
    replace (e + 1074) with (Zpos n + (e' + 1074)) by lia.
    rewrite (pow2_split (Zpos n)) by lia. lia.
Qed.

Lemma binary_round_le (m : positive) (e : Z) (mB : positive) (eB : Z) :
  -1074 <= e ->
  SpecFloat.bounded prec emax mB eB = true ->
  Zpos m * 2 ^ (e + 1074) <= scaled mB eB ->
  nonneg_finite (binary_round prec emax false m e) = true /\
  value (binary_round prec emax false m e) <= scaled mB eB.
Proof.
  intros He HB Hle. unfold binary_round. rewrite fexp_eq.
  set (fe := Z.max (Zpos (digits2_pos m) + e - 53) (-1074)).
  destruct (Z_le_gt_dec e fe) as [Hge | Hlt].
  - assert (Hsame : shl_align m e fe = (m, e)).
    { unfold shl_align. to_binint. destruct (fe - e) eqn:Hd; try reflexivity. lia. }
    rewrite Hsame. apply binary_round_aux_le; assumption.
  - destruct (shl_align_value m e fe ltac:(lia)) as (Hs & Hv & Hd).
    destruct (shl_align m e fe) as [mz ez]. cbn [fst snd] in *. subst ez.
    apply binary_round_aux_le; try assumption; [lia | | ].
    + rewrite fexp_eq, Hd. fold fe. lia.
    + rewrite Hv. exact Hle.
Qed.

(** ** Sums and differences of non-negative doubles *)

Lemma SFadd_nonneg_le (x y : spec_float) (mB : positive) (eB : Z) :
  valid_binary x = true -> valid_binary y = true ->
  nonneg_finite x = true -> nonneg_finite y = true ->
  SpecFloat.bounded prec emax mB eB = true ->
  value x + value y <= scaled mB eB ->
  nonneg_finite (SF64add x y) = true /\
  value (SF64add x y) <= scaled mB eB.
Proof.
  intros Vx Vy Nx Ny HB Hle. unfold SF64add.
  destruct x as [sx | sx | | sx mx ex]; try discriminate Nx;
  destruct y as [sy | sy | | sy my ey]; try discriminate Ny.
  - pose proof (scaled_pos mB eB) as HpB.
    destruct (bounded_inv _ _ HB) as (HeB & _).
    destruct sx, sy; cbn; split; try reflexivity; lia.
  - destruct sy; [discriminate Ny|]. cbn in *. split; [reflexivity | lia].
  - destruct sx; [discriminate Nx|]. cbn in *. split; [reflexivity | lia].
  - destruct sx; [discriminate Nx|]. destruct sy; [discriminate Ny|].
    cbn [SFadd cond_Zopp value] in *. to_binint.
    cbn [valid_binary] in Vx, Vy.
    destruct (bounded_inv _ _ Vx) as (Hex & _).
    destruct (bounded_inv _ _ Vy) as (Hey & _).
    destruct (shl_align_value mx ex (Z.min ex ey) ltac:(lia)) as (_ & Hvx & _).
    destruct (shl_align_value my ey (Z.min ex ey) ltac:(lia)) as (_ & Hvy & _).
    set (a := fst (shl_align mx ex (Z.min ex ey))) in *.
    set (b := fst (shl_align my ey (Z.min ex ey))) in *.
    change (Zpos a + Zpos b) with (Zpos (a + b)).
    cbn [binary_normalize].
    apply binary_round_le; [lia | exact HB |].
    rewrite Pos2Z.inj_add. lia.
Qed.

Lemma SFsub_nonneg_le (x y : spec_float) (mB : positive) (eB : Z) :
  valid_binary x = true -> valid_binary y = true ->
  nonneg_finite x = true -> nonneg_finite y = true ->
  SpecFloat.bounded prec emax mB eB = true ->
  value y <= value x ->
  value x - value y <= scaled mB eB ->
  nonneg_finite (SF64sub x y) = true /\
  value (SF64sub x y) <= scaled mB eB.
Proof.
  intros Vx Vy Nx Ny HB Hyx Hle. unfold SF64sub.
  pose proof (scaled_pos mB eB) as HpB.
  destruct (bounded_inv _ _ HB) as (HeB & _).
  destruct x as [sx | sx | | sx mx ex]; try discriminate Nx;
  destruct y as [sy | sy | | sy my ey]; try discriminate Ny.
  - destruct sx, sy; cbn; split; try reflexivity; lia.
  - destruct sy; [discriminate Ny|]. cbn [valid_binary value] in *.
    destruct (bounded_inv _ _ Vy) as (Hey & _).
    pose proof (scaled_pos my ey ltac:(lia)). lia.
  - destruct sx; [discriminate Nx|]. cbn in *. split; [reflexivity | lia].
  - destruct sx; [discriminate Nx|]. destruct sy; [discriminate Ny|].
    cbn [SFsub cond_Zopp value] in *. to_binint.
    cbn [valid_binary] in Vx, Vy.
    destruct (bounded_inv _ _ Vx) as (Hex & _).
    destruct (bounded_inv _ _ Vy) as (Hey & _).
    destruct (shl_align_value mx ex (Z.min ex ey) ltac:(lia)) as (_ & Hvx & _).
    destruct (shl_align_value my ey (Z.min ex ey) ltac:(lia)) as (_ & Hvy & _).
    set (a := fst (shl_align mx ex (Z.min ex ey))) in *.
    set (b := fst (shl_align my ey (Z.min ex ey))) in *.
    pose proof (pow2_pos (Z.min ex ey + 1074) ltac:(lia)) as HP.
    set (P := 2 ^ (Z.min ex ey + 1074)) in *.
    assert (Hdiff : (Zpos a - Zpos b) * P = scaled mx ex - scaled my ey) by lia.
    destruct (Zpos a - Zpos b) as [|c|c] eqn:Hc; cbn [binary_normalize].
    + cbn. split; [reflexivity | lia].
    + apply binary_round_le; [lia | exact HB |]. fold P. lia.
    + exfalso. clearbody P. nia.
Qed.

Lemma TWO_PI_spec : Prim2SF TWO_PI = S754_finite false TWO_PI_mantissa (-50).
Proof. vm_compute. reflexivity. Qed.

Lemma zero_spec : Prim2SF 0%float = S754_zero false.
Proof. vm_compute. reflexivity. Qed.

(** No double lies strictly between a normal double and the one below it. *)
Lemma below_is_pred (x : spec_float) (mB : positive) (eB : Z) :
  valid_binary x = true -> nonneg_finite x = true ->
  SpecFloat.bounded prec emax mB eB = true -> 2 ^ 52 < Zpos mB ->
  value x < scaled mB eB ->
  value x <= (Zpos mB - 1) * 2 ^ (eB + 1074).
Proof.
  intros Vx Nx HB Hnormal Hlt.
  destruct (bounded_inv _ _ HB) as (HeB & HmB & _).
  pose proof (pow2_pos (eB + 1074) ltac:(lia)) as HE.
  destruct x as [sx | sx | | sx m e]; try discriminate Nx.
  - cbn. nia.
  - destruct sx; [discriminate Nx|]. cbn [value valid_binary] in *.
    destruct (bounded_inv _ _ Vx) as (He & Hm & _).
    destruct (Z_lt_ge_dec e eB) as [Hlow | Hhigh].
    + unfold scaled.
      replace (eB + 1074) with ((e + 1074) + (eB - e - 1) + 1) by lia.
      rewrite pow2_succ, (pow2_split (e + 1074) (eB - e - 1)) by lia.
      pose proof (pow2_pos (e + 1074) ltac:(lia)) as HP.
      pose proof (pow2_pos (eB - e - 1) ltac:(lia)) as HJ.
      set (P := 2 ^ (e + 1074)) in *. set (J := 2 ^ (eB - e - 1)) in *.
      clearbody P J. change (2 ^ 53) with (2 * 2 ^ 52) in Hm.
      set (C := 2 ^ 52) in *. clearbody C.
      assert (Zpos m * P <= 2 * C * P) by nia.
      assert (2 * C * P <= (Zpos mB - 1) * (2 * P)) by nia.
      assert ((Zpos mB - 1) * (2 * P) <= (Zpos mB - 1) * (2 * (P * J))) by nia.
      lia.
    + unfold scaled in *.
      assert (Hsplit : 2 ^ (e + 1074) = 2 ^ (eB + 1074) * 2 ^ (e - eB)).
      { rewrite <- pow2_split by lia. f_equal. lia. }
      rewrite Hsplit in *.
      pose proof (pow2_pos (e - eB) ltac:(lia)) as HJ.
      set (E := 2 ^ (eB + 1074)) in *. set (J := 2 ^ (e - eB)) in *.
      clearbody E J.
      assert (Zpos m * J < Zpos mB) by nia.
      assert (Zpos m * J * E <= (Zpos mB - 1) * E) by nia.
      lia.
Qed.

Lemma nonneg_of_prim (x : float) :
  PrimFloat.leb 0 x = true -> PrimFloat.ltb x TWO_PI = true ->
  nonneg_finite (Prim2SF x) = true /\
  value (Prim2SF x) < scaled TWO_PI_mantissa (-50).
Proof.
  rewrite leb_spec, ltb_spec, zero_spec, TWO_PI_spec.
  pose proof (Prim2SF_valid x) as Vx.
  unfold SFleb, SFltb. intros Hle Hlt.
  assert (Nx : nonneg_finite (Prim2SF x) = true).
  { destruct (Prim2SF x) as [s | [|] | | [|] m e]; try reflexivity;
      cbn in Hle, Hlt; discriminate. }
  split; [exact Nx|].
  rewrite (SFcompare_value (Prim2SF x) (S754_finite false TWO_PI_mantissa (-50)) Vx eq_refl Nx eq_refl) in Hlt.
  cbn [value] in Hlt.
  destruct (Z.compare_spec (value (Prim2SF x)) (scaled TWO_PI_mantissa (-50)));
    try discriminate Hlt. assumption.
Qed.

Lemma prim_of_nonneg (x : float) :
  nonneg_finite (Prim2SF x) = true ->
  value (Prim2SF x) < scaled TWO_PI_mantissa (-50) ->
  PrimFloat.leb 0 x = true /\ PrimFloat.ltb x TWO_PI = true.
Proof.
  intros Nx Hlt. rewrite leb_spec, ltb_spec, zero_spec, TWO_PI_spec.
  pose proof (Prim2SF_valid x) as Vx. unfold SFleb, SFltb.
  rewrite (SFcompare_value (S754_zero false) (Prim2SF x) eq_refl Vx eq_refl Nx).
  rewrite (SFcompare_value (Prim2SF x) (S754_finite false TWO_PI_mantissa (-50)) Vx eq_refl Nx eq_refl).
  cbn [value].
  assert (Hpos : 0 <= value (Prim2SF x)).
  { destruct (Prim2SF x) as [s | s | | [|] m e]; cbn; try lia.
    cbn in Vx. destruct (bounded_inv _ _ Vx) as (He & _).
    pose proof (scaled_pos m e ltac:(lia)). lia. }
  split.
  - destruct (Z.compare_spec 0 (value (Prim2SF x))); try reflexivity. lia.
  - destruct (Z.compare_spec (value (Prim2SF x)) (scaled TWO_PI_mantissa (-50)));
      try reflexivity; lia.
Qed.

(** One wrapped increment: from a phase and an increment in [0, 2 pi) the
    new phase is in [0, 2 pi). *)
Lemma wrapped_increment_in_range (p d : float) :
  PrimFloat.leb 0 p = true -> PrimFloat.ltb p TWO_PI = true ->
  PrimFloat.leb 0 d = true -> PrimFloat.ltb d TWO_PI = true ->
  PrimFloat.leb 0 (if PrimFloat.leb TWO_PI (p + d)
                   then (p + d - TWO_PI)%float else (p + d)%float) = true /\
  PrimFloat.ltb (if PrimFloat.leb TWO_PI (p + d)
                 then (p + d - TWO_PI)%float else (p + d)%float) TWO_PI = true.
Proof.
  intros Hp0 HpT Hd0 HdT.
  destruct (nonneg_of_prim p Hp0 HpT) as [Np Vp].
  destruct (nonneg_of_prim d Hd0 HdT) as [Nd Vd].
  assert (HT : SpecFloat.bounded prec emax TWO_PI_mantissa (-50) = true) by reflexivity.
  assert (HT52 : 2 ^ 52 < Zpos TWO_PI_mantissa) by (vm_compute; reflexivity).
  apply (below_is_pred _ _ _ (Prim2SF_valid p) Np HT HT52) in Vp.
  apply (below_is_pred _ _ _ (Prim2SF_valid d) Nd HT HT52) in Vd.
  (* the sum is at most twice the double below 2 pi *)
  assert (HB2 : SpecFloat.bounded prec emax (TWO_PI_mantissa - 1) (-49) = true)
    by reflexivity.
  destruct (SFadd_nonneg_le (Prim2SF p) (Prim2SF d) (TWO_PI_mantissa - 1) (-49)
              (Prim2SF_valid p) (Prim2SF_valid d) Np Nd HB2) as [Ns Vs].
  { unfold scaled. change (-49 + 1074) with (-50 + 1074 + 1).
    rewrite pow2_succ by lia.
    change (Zpos (TWO_PI_mantissa - 1)) with (Zpos TWO_PI_mantissa - 1). lia. }
  rewrite <- add_spec in Ns, Vs.
  pose proof (Prim2SF_valid (p + d)) as Vsum.
  destruct (PrimFloat.leb TWO_PI (p + d)) eqn:Hwrap.
  - rewrite leb_spec, TWO_PI_spec in Hwrap. unfold SFleb in Hwrap.
    rewrite (SFcompare_value (S754_finite false TWO_PI_mantissa (-50)) (Prim2SF (p + d)) eq_refl Vsum eq_refl Ns) in Hwrap.
    cbn [value] in Hwrap.
    assert (HTs : scaled TWO_PI_mantissa (-50) <= value (Prim2SF (p + d))).
    { destruct (Z.compare_spec (scaled TWO_PI_mantissa (-50))
                  (value (Prim2SF (p + d)))); try discriminate Hwrap; lia. }
    assert (HB3 : SpecFloat.bounded prec emax (TWO_PI_mantissa - 2) (-50) = true)
      by reflexivity.
    destruct (SFsub_nonneg_le (Prim2SF (p + d)) (Prim2SF TWO_PI)
                (TWO_PI_mantissa - 2) (-50)
                Vsum (Prim2SF_valid TWO_PI) Ns) as [Nr Vr].
    + rewrite TWO_PI_spec. reflexivity.
    + exact HB3.
    + rewrite TWO_PI_spec. exact HTs.
    + rewrite TWO_PI_spec. cbn [value]. unfold scaled in *.
      change (-49 + 1074) with (-50 + 1074 + 1) in Vs.
      rewrite pow2_succ in Vs by lia.
      change (Zpos (TWO_PI_mantissa - 1)) with (Zpos TWO_PI_mantissa - 1) in Vs.
      change (Zpos (TWO_PI_mantissa - 2)) with (Zpos TWO_PI_mantissa - 2). lia.
    + rewrite <- sub_spec in Nr, Vr.
      apply prim_of_nonneg; [exact Nr|].
      unfold scaled in *.
      change (Zpos (TWO_PI_mantissa - 2)) with (Zpos TWO_PI_mantissa - 2) in Vr.
      pose proof (pow2_pos (-50 + 1074) ltac:(lia)). lia.
  - rewrite leb_spec, TWO_PI_spec in Hwrap. unfold SFleb in Hwrap.
    rewrite (SFcompare_value (S754_finite false TWO_PI_mantissa (-50)) (Prim2SF (p + d)) eq_refl Vsum eq_refl Ns) in Hwrap.
    cbn [value] in Hwrap.
    apply prim_of_nonneg; [exact Ns|].
    destruct (Z.compare_spec (scaled TWO_PI_mantissa (-50))
                (value (Prim2SF (p + d)))); try discriminate Hwrap; lia.
Qed.

Section Binary64Phase.

Local Open Scope float_scope.

Lemma TWO_PI_eq : (2 * M_PI)%float = TWO_PI.
Proof. reflexivity. Qed.

(** Lines 179-182 on [binary64]: the phase after the update. *)
Lemma advance_phase_binary64 (delta : float) (g : globals float) :
  g_phase (advance_phase delta g) =
    if PrimFloat.leb TWO_PI (g_phase g + delta)
    then g_phase g + delta - TWO_PI
    else g_phase g + delta.
Proof.
  unfold advance_phase.
  cbn [dge dadd dsub dmul d_2 M_PI binary64 g_phase set_phase].
  change (2 * 0x1.921fb54442d18p+1) with TWO_PI.
  destruct (PrimFloat.leb TWO_PI (g_phase g + delta)); reflexivity.
Qed.

Lemma phase_step (delta : float) (g : globals float) (k : nat) :
  phase_at (S k) delta g =
    if PrimFloat.leb TWO_PI (phase_at k delta g + delta)
    then phase_at k delta g + delta - TWO_PI
    else phase_at k delta g + delta.
Proof.
  unfold phase_at. rewrite frames_succ. unfold frame_next.
  rewrite advance_phase_binary64, fade_envelope_phase. reflexivity.
Qed.

Lemma phase_at_in_range (delta : float) (g : globals float) :
  PrimFloat.leb 0 (g_phase g) = true -> PrimFloat.ltb (g_phase g) TWO_PI = true ->
  PrimFloat.leb 0 delta = true -> PrimFloat.ltb delta TWO_PI = true ->
  forall k : nat,
    PrimFloat.leb 0 (phase_at k delta g) = true /\
    PrimFloat.ltb (phase_at k delta g) TWO_PI = true.
Proof.
  intros Hp0 HpT Hd0 HdT. induction k as [|k [IH0 IHT]].
  - split; assumption.
  - rewrite phase_step. now apply wrapped_increment_in_range.
Qed.


End Binary64Phase.

(** * Closed instances

    The theorems above at the reference run, and the runs on which the
    wording of a property and the code part ways. *)

Section Instances.

Local Open Scope float_scope.

(** C1, counterexample.  initialize(512); providers 1, 600, 0.5;
    SetTXActive(1); Generate(buf, 10, 48000): the fade-in is still running and
    its last envelope was 9/48 = 0.1875; SetTXActive(0): the first fade-out
    frame applies 1.0, not 0.1875. *)
Lemma interrupted_fade_not_continued :
  option_map fst
    (SidetoneGen_Generate sin_poly (Some (replicate 20 0)) 10 48000
       example_tx_on)
    = Some (frames 10 example_delta example_tx_on) /\
  g_fade_state (frames 10 example_delta example_tx_on) = 1%Z /\
  envelope_at 9 example_delta example_tx_on = 0.1875 /\
  envelope_at 0 example_delta
    (SidetoneGen_SetTXActive 0 (frames 10 example_delta example_tx_on)) = 1 /\
  envelope_at 0 example_delta
    (SidetoneGen_SetTXActive 0 (frames 10 example_delta example_tx_on))
    <> envelope_at 9 example_delta example_tx_on.
Proof.
  split; [vm_compute; reflexivity|].
  split; [vm_compute; reflexivity|].
  split; [vm_compute; reflexivity|].
  split; [vm_compute; reflexivity|].
  intros Heq.
  apply (f_equal (fun x => PrimFloat.ltb x 0.5)) in Heq.
  vm_compute in Heq. discriminate Heq.
Qed.

(** The interrupted fade of the run above: switched off after 10 frames. *)
Lemma interrupted_fade_restarts_witness :
  g_fade_state
    (SidetoneGen_SetTXActive 0 (frames 10 example_delta example_tx_on)) = 3%Z /\
  g_fade_counter
    (SidetoneGen_SetTXActive 0 (frames 10 example_delta example_tx_on)) = 0%Z /\
  envelope_at 0 example_delta
    (SidetoneGen_SetTXActive 0 (frames 10 example_delta example_tx_on)) = 1 /\
  envelope_at 9 example_delta example_tx_on =
    double_of_int 9 / double_of_int 48 /\
  PrimFloat.ltb (envelope_at 9 example_delta example_tx_on)
    (envelope_at 0 example_delta
       (SidetoneGen_SetTXActive 0 (frames 10 example_delta example_tx_on)))
    = true.
Proof.
  assert (Hoff : g_tx_active example_ready <> 1%Z) by (vm_compute; discriminate).
  assert (Hk : (10 < 48)%nat) by lia.
  assert (Hpos : (0 < 10)%nat) by lia.
  destruct (interrupted_fade_restarts example_delta example_delta 10
              example_ready Hoff Hk) as (Hs & Hc & Hfirst & Hlast).
  exact (conj Hs (conj Hc (conj Hfirst (Hlast Hpos)))).
Defined.

(** C2, counterexample.  A fade-out entered with counter 0 is still in state
    3 when frame 47 starts; that frame applies 0.0, while 1 - 47/48 is
    positive. *)
Lemma fade_out_last_frame_forced :
  g_fade_state (SidetoneGen_SetTXActive 0 example_tx_on) = 3%Z /\
  g_fade_counter (SidetoneGen_SetTXActive 0 example_tx_on) = 0%Z /\
  g_fade_state
    (frames 47 example_delta (SidetoneGen_SetTXActive 0 example_tx_on)) = 3%Z /\
  envelope_at 47 example_delta (SidetoneGen_SetTXActive 0 example_tx_on) = 0 /\
  PrimFloat.ltb 0 (1 - double_of_int 47 / double_of_int FADE_SAMPLES) = true /\
  envelope_at 47 example_delta (SidetoneGen_SetTXActive 0 example_tx_on)
    <> 1 - double_of_int 47 / double_of_int FADE_SAMPLES.
Proof.
  split; [vm_compute; reflexivity|].
  split; [vm_compute; reflexivity|].
  split; [vm_compute; reflexivity|].
  split; [vm_compute; reflexivity|].
  split; [vm_compute; reflexivity|].
  intros Heq.
  apply (f_equal (fun x => PrimFloat.ltb 0 x)) in Heq.
  vm_compute in Heq. discriminate Heq.
Qed.

(** The fade-out ramp of the reference run, switched off before any frame. *)
Lemma fade_out_ramp_witness :
  (forall i : nat, (i < 47)%nat ->
     envelope_at i example_delta (SidetoneGen_SetTXActive 0 example_tx_on) =
       1 - double_of_int (Z.of_nat i) / double_of_int FADE_SAMPLES /\
     g_fade_state
       (frames i example_delta (SidetoneGen_SetTXActive 0 example_tx_on)) = 3%Z) /\
  envelope_at 47 example_delta (SidetoneGen_SetTXActive 0 example_tx_on) = 0 /\
  g_fade_state
    (frames 48 example_delta (SidetoneGen_SetTXActive 0 example_tx_on)) = 0%Z /\
  envelope_at 48 example_delta (SidetoneGen_SetTXActive 0 example_tx_on) = 0.
Proof.
  exact (fade_out_ramp example_delta (SidetoneGen_SetTXActive 0 example_tx_on)
           eq_refl eq_refl).
Defined.

(** The fade-in ramp of the reference run, which starts idle. *)
Lemma fade_in_ramp_witness :
  FADE_SAMPLES = 48%Z /\
  g_fade_state (SidetoneGen_SetTXActive 1 example_ready) = 1%Z /\
  (forall i : nat, (i < 48)%nat ->
     envelope_at i example_delta (SidetoneGen_SetTXActive 1 example_ready) =
       double_of_int (Z.of_nat i) / double_of_int FADE_SAMPLES) /\
  g_fade_state
    (frames 48 example_delta (SidetoneGen_SetTXActive 1 example_ready)) = 2%Z /\
  envelope_at 48 example_delta (SidetoneGen_SetTXActive 1 example_ready) = 1.
Proof.
  assert (Hoff : g_tx_active example_ready <> 1%Z) by (vm_compute; discriminate).
  exact (fade_in_ramp example_delta example_ready Hoff).
Defined.

(** An initialised generator with no provider registered is silent and
    keeps its state. *)
Lemma Generate_silence_without_providers_witness :
  SidetoneGen_Generate sin_poly (Some (replicate 8 7)) 3 48000
    (SidetoneGen_SetTXActive 1
       (SidetoneGen_Initialize true 512 initial_globals))
  = Some (SidetoneGen_SetTXActive 1
            (SidetoneGen_Initialize true 512 initial_globals),
          Some [0; 0; 0; 0; 0; 0; 7; 7]).
Proof.
  assert (Hb : is_Some (g_buffer (SidetoneGen_SetTXActive 1
                 (SidetoneGen_Initialize true 512 (initial_globals (D:=float))))))
    by (eexists; reflexivity).
  assert (Hlen : (2 * 3 <= Z.of_nat (length (replicate 8 7%float)))%Z)
    by (simpl; lia).
  assert (Hmax : (2 * 3 <= CInt.INT_MAX)%Z) by (unfold CInt.INT_MAX; lia).
  assert (Hn : (0 <= 3)%Z) by lia.
  exact (Generate_silence_without_providers sin_poly (replicate 8 7) 3 48000
           _ Hb (or_introl eq_refl) Hn Hlen Hmax).
Defined.

(** Three frames of the reference run into a block of eight samples. *)
Lemma Generate_stereo_samples_witness :
  exists out' : list float,
    SidetoneGen_Generate sin_poly (Some (replicate 8 7)) 3 48000 example_tx_on
      = Some (frames 3 example_delta example_tx_on, Some out') /\
    length out' = 8%nat /\
    forall i : nat, (Z.of_nat i < 3)%Z ->
      out' !! (2 * i)%nat =
        Some (sin_poly (phase_at i example_delta example_tx_on) * 0.5
              * envelope_at i example_delta example_tx_on) /\
      out' !! (2 * i + 1)%nat = out' !! (2 * i)%nat.
Proof.
  assert (Hb : is_Some (g_buffer example_tx_on)) by (eexists; reflexivity).
  assert (Hlen : (2 * 3 <= Z.of_nat (length (replicate 8 7%float)))%Z)
    by (simpl; lia).
  assert (Hmax : (2 * 3 <= CInt.INT_MAX + 1)%Z) by (unfold CInt.INT_MAX; lia).
  destruct (Generate_returns sin_poly (replicate 8 7) 3 48000 example_tx_on
              (fun _ => 600%Z) (fun _ => 0.5) Hb eq_refl eq_refl Hlen Hmax)
    as [out' Hrun].
  exists out'. split; [exact Hrun|].
  exact (proj2 (Generate_stereo_samples sin_poly (replicate 8 7) out' 3 48000
                  example_tx_on _ (fun _ => 600%Z) (fun _ => 0.5)
                  Hb eq_refl eq_refl Hrun)).
Defined.

(** A failed allocation leaves the generator without its buffer: the call
    does nothing. *)
Lemma Generate_guard_noop_witness :
  SidetoneGen_Generate sin_poly (Some [7; 7]) 1 48000
    (SidetoneGen_Initialize false 512 initial_globals)
  = Some (SidetoneGen_Initialize false 512 initial_globals, Some [7; 7]).
Proof.
  exact (Generate_guard_noop sin_poly (Some [7; 7]) 1 48000
           (SidetoneGen_Initialize false 512 initial_globals)
           (or_intror eq_refl)).
Defined.

(** SetTXActive(2) on the reference run: the envelope starts to fade out
    while the activity query answers 1. *)
Lemma SetTXActive_nonboolean_witness :
  g_fade_state (SidetoneGen_SetTXActive 2 example_ready) = 3%Z /\
  g_fade_counter (SidetoneGen_SetTXActive 2 example_ready) = 0%Z /\
  g_phase (SidetoneGen_SetTXActive 2 example_ready) = g_phase example_ready /\
  g_tx_active (SidetoneGen_SetTXActive 2 example_ready) = 2%Z /\
  SidetoneGen_IsActive (SidetoneGen_SetTXActive 2 example_ready) = 1%Z.
Proof.
  assert (H0 : 2%Z <> 0%Z) by lia.
  assert (H1 : 2%Z <> 1%Z) by lia.
  assert (Hchange : g_tx_active example_ready <> 2%Z)
    by (vm_compute; discriminate).
  exact (SetTXActive_nonboolean 2 example_ready H0 H1 Hchange).
Defined.



End Instances.

(** * The rest of the API and the envelope over a whole run *)

Section Lifecycle.

Context {D : Type} `{DoubleArith D}.
Variable sin : D -> D.

(** ** Helper facts *)

Lemma frames_add (delta : D) (a b : nat) : forall g : globals D,
  frames (a + b) delta g = frames b delta (frames a delta g).
Proof.
  induction a as [|a IH]; intros g; simpl; [reflexivity | apply IH].
Qed.

Lemma same_configuration_refl (g : globals D) : same_configuration g g.
Proof. unfold same_configuration. repeat split; reflexivity. Qed.

Lemma same_configuration_trans (g1 g2 g3 : globals D) :
  same_configuration g1 g2 -> same_configuration g2 g3 ->
  same_configuration g1 g3.
Proof.
  unfold same_configuration.
  intros (A1 & A2 & A3 & A4 & A5 & A6 & A7) (B1 & B2 & B3 & B4 & B5 & B6 & B7).
  repeat split; congruence.
Qed.

Lemma frame_next_configuration (delta : D) (g : globals D) :
  same_configuration g (frame_next delta g).
Proof.
  unfold same_configuration, frame_next, advance_phase, fade_envelope.
  repeat match goal with |- context [if ?b then _ else _] => destruct b end;
    repeat split; reflexivity.
Qed.

Lemma frames_configuration (delta : D) (k : nat) : forall g : globals D,
  same_configuration g (frames k delta g).
Proof.
  induction k as [|k IH]; intros g; simpl.
  - apply same_configuration_refl.
  - eapply same_configuration_trans;
      [apply frame_next_configuration | apply IH].
Qed.

(** Every way a call can return, seen from the state. *)
Lemma Generate_state_cases (buffer buffer' : option (list D))
    (nsamples samplerate : Z) (g g' : globals D) :
  SidetoneGen_Generate sin buffer nsamples samplerate g = Some (g', buffer') ->
  g' = g \/
  exists getFreq, g_getFreq g = Some getFreq /\
    g' = frames (Z.to_nat nsamples)
           (delta_phase_of (getFreq tt) samplerate) g.
Proof.
  unfold SidetoneGen_Generate. intros Hrun.
  destruct buffer as [out|]; [|injection Hrun as <- _; now left].
  destruct (g_buffer g); [|injection Hrun as <- _; now left].
  destruct (g_getFreq g) as [getFreq|], (g_getVolume g) as [getVolume|];
    try (destruct (memset_zero out _); [injection Hrun as <- _; now left
                                       | discriminate Hrun]).
  destruct (gen_loop _ _ _ _ _ _) as [[g2 o2]|] eqn:Eloop; [|discriminate Hrun].
  injection Hrun as <- _. right. exists getFreq. split; [reflexivity|].
  apply gen_loop_inv in Eloop as (-> & _); [reflexivity|].
  unfold CInt.INT_MAX; lia.
Qed.

Lemma frame_next_fade_invariant (delta : D) (g : globals D) :
  fade_invariant g -> fade_invariant (frame_next delta g).
Proof.
  unfold fade_invariant. intros (Hc & Hs).
  destruct (frame_next_fade delta g) as [-> ->].
  destruct Hs as [Hs | [Hs | [[Hs | Hs] Hlt]]].
  - rewrite idle_frame by exact Hs. simpl. auto.
  - rewrite sustain_frame by exact Hs. simpl. auto.
  - destruct (fade_in_frame g Hs) as (_ & -> & ->); [lia|].
    unfold FADE_SAMPLES in *.
    destruct (Z.geb_spec (g_fade_counter g + 1) 48);
      (split; [lia|]); [right; left; reflexivity|].
    right; right. split; [left; reflexivity | lia].
  - destruct (fade_out_frame g Hs) as (_ & -> & ->); [lia|].
    unfold FADE_SAMPLES in *.
    destruct (Z.geb_spec (g_fade_counter g + 1) 48);
      (split; [lia|]); [left; reflexivity|].
    right; right. split; [right; reflexivity | lia].
Qed.

Lemma frames_fade_invariant (delta : D) (k : nat) : forall g : globals D,
  fade_invariant g -> fade_invariant (frames k delta g).
Proof.
  induction k as [|k IH]; intros g Hinv; simpl; [exact Hinv|].
  apply IH, frame_next_fade_invariant, Hinv.
Qed.

Lemma reachable_fade_invariant (g : globals D) :
  reachable sin g -> fade_invariant g.
Proof.
  induction 1 as [ | heap_ok blocksize g _ IH | g _ IH | v g _ IH
                 | e f vol g _ IH | buffer n sr g g' buffer' _ IH Hrun].
  - unfold fade_invariant, FADE_SAMPLES. simpl. split; [lia | auto].
  - unfold fade_invariant, FADE_SAMPLES, SidetoneGen_Initialize in *.
    destruct heap_ok; simpl; [split; [lia | auto] | exact IH].
  - unfold fade_invariant, FADE_SAMPLES. simpl. split; [lia | auto].
  - unfold fade_invariant, FADE_SAMPLES, SidetoneGen_SetTXActive in *.
    destruct (Z.eqb_spec (g_tx_active g) v); [exact IH|].
    destruct (Z.eqb_spec v 1); simpl; (split; [lia|]); right; right;
      (split; [auto | lia]).
  - exact IH.
  - destruct (Generate_state_cases _ _ _ _ _ _ Hrun) as [-> | (f & _ & ->)];
      [exact IH | apply frames_fade_invariant, IH].
Qed.

(** Sustain and idle do not move. *)
Lemma steady_frames (delta : D) (s : Z) (k : nat) : forall g : globals D,
  (s = 0 \/ s = 2) -> g_fade_state g = s ->
  g_fade_state (frames k delta g) = s /\
  g_fade_counter (frames k delta g) = g_fade_counter g.
Proof.
  induction k as [|k IH]; intros g Hs Hst; simpl; [auto|].
  assert (Hnext : g_fade_state (frame_next delta g) = s /\
                  g_fade_counter (frame_next delta g) = g_fade_counter g).
  { destruct (frame_next_fade delta g) as [-> ->].
    destruct Hs as [-> | ->].
    - rewrite idle_frame by exact Hst. auto.
    - rewrite sustain_frame by exact Hst. auto. }
  destruct Hnext as [Hs' Hc'].
  destruct (IH (frame_next delta g) Hs Hs') as [-> ->]. auto.
Qed.

(** A ramp that started with counter 0 has ended after 48 frames. *)
Lemma ramp_end (delta : D) (s : Z) (g : globals D) :
  (s = 1 \/ s = 3) -> g_fade_state g = s -> g_fade_counter g = 0 ->
  g_fade_state (frames 48 delta g) = (if s =? 1 then 2 else 0).
Proof.
  intros Hs Hst Hc.
  destruct (ramp_frames delta s g Hs Hst Hc 47%nat) as [Hs47 Hc47]; [lia|].
  rewrite frames_succ.
  destruct (frame_next_fade delta (frames 47 delta g)) as [-> _].
  destruct Hs as [-> | ->].
  - destruct (fade_in_frame (frames 47 delta g)) as (_ & _ & ->);
      [assumption | unfold FADE_SAMPLES; lia |].
    rewrite Hc47. reflexivity.
  - destruct (fade_out_frame (frames 47 delta g)) as (_ & _ & ->);
      [assumption | unfold FADE_SAMPLES; lia |].
    rewrite Hc47. reflexivity.
Qed.

Lemma after_ramp (delta : D) (s : Z) (g : globals D) (k : nat) :
  (s = 1 \/ s = 3) -> g_fade_state g = s -> g_fade_counter g = 0 ->
  (48 <= k)%nat ->
  g_fade_state (frames k delta g) = (if s =? 1 then 2 else 0).
Proof.
  intros Hs Hst Hc Hk.
  replace k with (48 + (k - 48))%nat by lia. rewrite frames_add.
  pose proof (ramp_end delta s g Hs Hst Hc) as Hend.
  destruct (steady_frames delta (if s =? 1 then 2 else 0) (k - 48)
              (frames 48 delta g)) as [-> _]; [|exact Hend|reflexivity].
  destruct Hs as [-> | ->]; simpl; auto.
Qed.

(** The envelope of frame [i] of a fade-out that started with counter 0. *)
Lemma fade_out_envelope (delta : D) (g : globals D) :
  g_fade_state g = 3 -> g_fade_counter g = 0 ->
  forall i : nat, (i < 48)%nat ->
    envelope_at i delta g =
      (if Z.of_nat i + 1 >=? 48 then d_0
       else dsub d_1 (ddiv (of_int (Z.of_nat i)) (of_int FADE_SAMPLES))).
Proof.
  intros Hs Hc i Hi.
  destruct (ramp_frames delta 3 g (or_intror eq_refl) Hs Hc i Hi) as [Hsi Hci].
  destruct (fade_out_frame (frames i delta g)) as (He & _ & _);
    [assumption | unfold FADE_SAMPLES; lia |].
  unfold envelope_at. rewrite He, Hci. reflexivity.
Qed.

(** The byte count handed to memset, for a frame count whose double fits
    an [int]. *)
Lemma silence_bytes (nsamples : Z) :
  CInt.INT_MIN <= 2 * nsamples <= CInt.INT_MAX ->
  CInt.size_mul (CInt.to_size_t (CInt.mul nsamples 2)) CInt.sizeof_double
    = (16 * nsamples) mod CInt.SIZE_MODULUS.
Proof.
  intros Hn. unfold CInt.size_mul, CInt.to_size_t, CInt.mul, CInt.sizeof_double.
  rewrite wrap_in_range by lia.
  rewrite Z.mul_mod_idemp_l by (unfold CInt.SIZE_MODULUS; lia).
  f_equal. lia.
Qed.

(** With a provider missing the call is the memset. *)
Lemma Generate_is_memset (out : list D) (nsamples samplerate : Z)
    (g : globals D) :
  is_Some (g_buffer g) ->
  g_getFreq g = None \/ g_getVolume g = None ->
  SidetoneGen_Generate sin (Some out) nsamples samplerate g =
    match memset_zero out
            (CInt.size_mul (CInt.to_size_t (CInt.mul nsamples 2))
                           CInt.sizeof_double) with
    | None => None
    | Some out' => Some (g, Some out')
    end.
Proof.
  intros [b Hb] Hprov. unfold SidetoneGen_Generate. rewrite Hb.
  destruct Hprov as [-> | ->]; [reflexivity|].
  destruct (g_getFreq g); reflexivity.
Qed.

(** ** Initialise and destroy *)

(** X1.  A successful initialise of a block size b with 0 <= 2b <= INT_MAX
    leaves a zero-filled buffer of 2b doubles, stores b, resets the transmit
    state, the phase and the envelope to idle, and keeps the registered
    providers; the activity query is then 0 and every frame generated before
    the next transmit edge has envelope 0.0 in the idle state. *)
Theorem Initialize_success (blocksize : Z) (g : globals D) :
  0 <= blocksize -> 2 * blocksize <= CInt.INT_MAX ->
  g_buffer (SidetoneGen_Initialize true blocksize g)
    = Some (replicate (Z.to_nat (2 * blocksize)) d_0) /\
  g_blocksize (SidetoneGen_Initialize true blocksize g) = blocksize /\
  g_tx_active (SidetoneGen_Initialize true blocksize g) = 0 /\
  g_phase (SidetoneGen_Initialize true blocksize g) = d_0 /\
  (g_getEnabled (SidetoneGen_Initialize true blocksize g) = g_getEnabled g /\
   g_getFreq (SidetoneGen_Initialize true blocksize g) = g_getFreq g /\
   g_getVolume (SidetoneGen_Initialize true blocksize g) = g_getVolume g) /\
  SidetoneGen_IsActive (SidetoneGen_Initialize true blocksize g) = 0 /\
  forall (delta : D) (k : nat),
    g_fade_state (frames k delta (SidetoneGen_Initialize true blocksize g)) = 0 /\
    envelope_at k delta (SidetoneGen_Initialize true blocksize g) = d_0.
Proof.
  intros Hb Hmax.
  assert (Hsize :
    CInt.size_mul (CInt.to_size_t (CInt.mul blocksize 2)) CInt.sizeof_double
      / CInt.sizeof_double = 2 * blocksize).
  { rewrite silence_bytes by (unfold CInt.INT_MIN; lia).
    unfold CInt.SIZE_MODULUS, CInt.sizeof_double, CInt.INT_MAX in *.
    rewrite Z.mod_small by lia.
    replace (16 * blocksize) with (2 * blocksize * 8) by lia.
    apply Z.div_mul. lia. }
  unfold SidetoneGen_Initialize, malloc0. cbn [g_buffer set_buffer].
  rewrite Hsize.
  split; [reflexivity|]. split; [reflexivity|]. split; [reflexivity|].
  split; [reflexivity|]. split; [repeat split; reflexivity|].
  split; [reflexivity|].
  intros delta k.
  match goal with |- g_fade_state (frames k delta ?g0) = 0 /\ _ =>
    destruct (steady_frames delta 0 k g0 (or_introl eq_refl) eq_refl)
      as [Hs _]
  end.
  split; [exact Hs|].
  unfold envelope_at. now rewrite idle_frame.
Qed.

(** X2.  When the allocation fails, initialise stores the block size and
    leaves the generator without a buffer; the transmit state, the phase, the
    envelope and the providers are not reset, and every later generate call,
    whatever its arguments, returns without touching the state or the
    caller's block. *)
Theorem Initialize_failure_inert (blocksize : Z) (g : globals D) :
  g_buffer (SidetoneGen_Initialize false blocksize g) = None /\
  g_blocksize (SidetoneGen_Initialize false blocksize g) = blocksize /\
  (g_tx_active (SidetoneGen_Initialize false blocksize g) = g_tx_active g /\
   g_getEnabled (SidetoneGen_Initialize false blocksize g) = g_getEnabled g /\
   g_getFreq (SidetoneGen_Initialize false blocksize g) = g_getFreq g /\
   g_getVolume (SidetoneGen_Initialize false blocksize g) = g_getVolume g) /\
  (g_phase (SidetoneGen_Initialize false blocksize g) = g_phase g /\
   g_fade_state (SidetoneGen_Initialize false blocksize g) = g_fade_state g /\
   g_fade_counter (SidetoneGen_Initialize false blocksize g)
     = g_fade_counter g /\
   SidetoneGen_IsActive (SidetoneGen_Initialize false blocksize g)
     = SidetoneGen_IsActive g) /\
  forall (buffer : option (list D)) (nsamples samplerate : Z),
    SidetoneGen_Generate sin buffer nsamples samplerate
      (SidetoneGen_Initialize false blocksize g)
    = Some (SidetoneGen_Initialize false blocksize g, buffer).
Proof.
  split; [reflexivity|]. split; [reflexivity|].
  split; [repeat split; reflexivity|].
  split; [repeat split; reflexivity|].
  intros buffer nsamples samplerate. unfold SidetoneGen_Generate.
  destruct buffer; reflexivity.
Qed.

(** X3.  Destroy returns every variable to its static initial value, the
    providers included, and adds one debug line; afterwards the activity
    query is 0 and every generate call returns without touching the state or
    the caller's block.  A second destroy changes nothing but the log. *)
Theorem Destroy_resets (g : globals D) :
  SidetoneGen_Destroy g
    = OutputDebugStringA "SidetoneGen: Destroyed"
        {| g_tx_active := 0; g_phase := d_0; g_fade_state := 0;
           g_fade_counter := 0; g_buffer := None; g_blocksize := 0;
           g_getEnabled := None; g_getFreq := None; g_getVolume := None;
           debug_output := debug_output g |} /\
  SidetoneGen_IsActive (SidetoneGen_Destroy g) = 0 /\
  (forall (buffer : option (list D)) (nsamples samplerate : Z),
     SidetoneGen_Generate sin buffer nsamples samplerate (SidetoneGen_Destroy g)
     = Some (SidetoneGen_Destroy g, buffer)) /\
  SidetoneGen_Destroy (SidetoneGen_Destroy g)
    = OutputDebugStringA "SidetoneGen: Destroyed" (SidetoneGen_Destroy g).
Proof.
  assert (Hd : forall g0 : globals D,
            SidetoneGen_Destroy g0
              = OutputDebugStringA "SidetoneGen: Destroyed"
                  {| g_tx_active := 0; g_phase := d_0; g_fade_state := 0;
           g_fade_counter := 0; g_buffer := None; g_blocksize := 0;
           g_getEnabled := None; g_getFreq := None; g_getVolume := None;
           debug_output := debug_output g0 |}).
  { intros g0. unfold SidetoneGen_Destroy.
    destruct (g_buffer g0) eqn:Eb; [reflexivity|].
    unfold OutputDebugStringA, set_callbacks, set_fade_counter, set_fade_state,
      set_phase, set_tx_active, set_blocksize. simpl. rewrite Eb. reflexivity. }
  split; [apply Hd|]. split; [rewrite Hd; reflexivity|]. split.
  - intros buffer nsamples samplerate. rewrite Hd.
    unfold SidetoneGen_Generate. destruct buffer; reflexivity.
  - rewrite (Hd (SidetoneGen_Destroy g)), Hd. reflexivity.
Qed.

(** X4.  Destroy drops the providers and initialise does not bring them
    back: after destroy and a successful initialise, a generate call of n
    frames (0 <= n, block of at least 2n samples, 2n within int) zero-fills
    the first 2n samples and leaves the state as it is, until the providers
    are registered again. *)
Theorem Destroy_then_Initialize_is_silent (out : list D)
    (blocksize nsamples samplerate : Z) (g : globals D) :
  0 <= nsamples ->
  2 * nsamples <= Z.of_nat (length out) ->
  2 * nsamples <= CInt.INT_MAX ->
  SidetoneGen_Generate sin (Some out) nsamples samplerate
    (SidetoneGen_Initialize true blocksize (SidetoneGen_Destroy g))
  = Some (SidetoneGen_Initialize true blocksize (SidetoneGen_Destroy g),
          Some (replicate (Z.to_nat (2 * nsamples)) d_0
                  ++ drop (Z.to_nat (2 * nsamples)) out)).
Proof.
  intros Hn Hlen Hmax.
  rewrite Generate_is_memset;
    [| eexists; reflexivity
     | left; unfold SidetoneGen_Destroy; destruct (g_buffer g); reflexivity].
  rewrite silence_bytes by (unfold CInt.INT_MIN; lia).
  unfold CInt.SIZE_MODULUS, CInt.INT_MAX in *.
  rewrite Z.mod_small by lia.
  unfold memset_zero, CInt.sizeof_double.
  destruct (Z.leb_spec (16 * nsamples) (8 * Z.of_nat (length out))); [|lia].
  replace (16 * nsamples / 8) with (2 * nsamples)
    by (replace (16 * nsamples) with (2 * nsamples * 8) by lia;
        rewrite Z.div_mul; lia).
  reflexivity.
Qed.

(** A frame leaves the ramping-or-sustained states only by ending a
    fade-out, and enters them never. *)
Lemma frame_next_active_before (delta : D) (g : globals D) :
  g_fade_state (frame_next delta g) = 1 \/ g_fade_state (frame_next delta g) = 2 ->
  g_fade_state g = 1 \/ g_fade_state g = 2.
Proof.
  destruct (frame_next_fade delta g) as [-> _]. unfold fade_envelope.
  destruct (Z.eqb_spec (g_fade_state g) 1) as [E1|N1]; [auto|].
  destruct (Z.eqb_spec (g_fade_state g) 3) as [E3|N3].
  - simpl. destruct (_ >=? _); simpl; rewrite ?E3;
      intros [Hs | Hs]; discriminate Hs.
  - destruct (Z.eqb_spec (g_fade_state g) 0); simpl; auto.
Qed.

Lemma frames_active_before (delta : D) (k : nat) : forall g : globals D,
  g_fade_state (frames k delta g) = 1 \/ g_fade_state (frames k delta g) = 2 ->
  g_fade_state g = 1 \/ g_fade_state g = 2.
Proof.
  induction k as [|k IH]; intros g Hs; simpl in Hs; [exact Hs|].
  apply (frame_next_active_before delta), IH, Hs.
Qed.

Lemma Generate_frame_condition_aux (g g' : globals D)
    (buffer buffer' : option (list D)) (nsamples samplerate : Z) :
  SidetoneGen_Generate sin buffer nsamples samplerate g = Some (g', buffer') ->
  g_tx_active g' = g_tx_active g /\
  (g_fade_state g' = 1 \/ g_fade_state g' = 2 ->
   g_fade_state g = 1 \/ g_fade_state g = 2).
Proof.
  intros Hrun.
  destruct (Generate_state_cases _ _ _ _ _ _ Hrun) as [-> | (f & _ & ->)].
  - auto.
  - split; [apply frames_tx_active | apply frames_active_before].
Qed.


(** ** What a generate call touches *)

(** X5.  A generate call that returns changes at most the phase, the fade
    state and the fade counter: the transmit state, the internal buffer, the
    block size, the three providers and the debug log are as before. *)
Theorem Generate_frame_condition (buffer buffer' : option (list D))
    (nsamples samplerate : Z) (g g' : globals D) :
  SidetoneGen_Generate sin buffer nsamples samplerate g = Some (g', buffer') ->
  same_configuration g g'.
Proof.
  intros Hrun.
  destruct (Generate_state_cases _ _ _ _ _ _ Hrun) as [-> | (f & _ & ->)].
  - apply same_configuration_refl.
  - apply frames_configuration.
Qed.

(** X6.  Splitting a run into two calls does not change it: after a call of
    n frames and a call of m frames (both returning, same sample rate, both
    providers registered) the state is the state after n + m frames, the one
    a single call of n + m frames returns, and frame i of the second block
    holds sin(phase) * volume * envelope of frame n + i of the run. *)
Theorem Generate_block_split (out1 out1' out2 out2' : list D)
    (n m samplerate : Z) (g g1 g2 : globals D)
    (getFreq : unit -> Z) (getVolume : unit -> D) :
  is_Some (g_buffer g) ->
  g_getFreq g = Some getFreq -> g_getVolume g = Some getVolume ->
  0 <= n -> 0 <= m ->
  SidetoneGen_Generate sin (Some out1) n samplerate g
    = Some (g1, Some out1') ->
  SidetoneGen_Generate sin (Some out2) m samplerate g1
    = Some (g2, Some out2') ->
  let volume := getVolume tt in
  let delta := delta_phase_of (getFreq tt) samplerate in
  g2 = frames (Z.to_nat (n + m)) delta g /\
  (forall (out3 out3' : list D) (g3 : globals D),
     SidetoneGen_Generate sin (Some out3) (n + m) samplerate g
       = Some (g3, Some out3') -> g3 = g2) /\
  forall i : nat, Z.of_nat i < m ->
    out2' !! (2 * i)%nat =
      Some (dmul (dmul (sin (phase_at (Z.to_nat n + i) delta g)) volume)
                 (envelope_at (Z.to_nat n + i) delta g)).
Proof.
  intros Hb Hf Hv Hn Hm Hrun1 Hrun2 volume delta.
  apply (Generate_is_loop sin out1 out1' _ _ g g1 getFreq getVolume Hb Hf Hv)
    in Hrun1.
  apply gen_loop_inv in Hrun1 as (Hg1 & _); [|unfold CInt.INT_MAX; lia].
  fold delta in Hg1.
  destruct (frames_configuration delta (Z.to_nat n) g)
    as (_ & Hb1 & _ & _ & Hf1 & Hv1 & _).
  rewrite <- Hg1 in Hb1, Hf1, Hv1.
  rewrite <- Hb1 in Hb. rewrite <- Hf1 in Hf. rewrite <- Hv1 in Hv.
  apply (Generate_is_loop sin out2 out2' _ _ g1 g2 getFreq getVolume Hb Hf Hv)
    in Hrun2.
  apply gen_loop_inv in Hrun2 as (Hg2 & _ & _ & Hsamples);
    [|unfold CInt.INT_MAX; lia].
  fold delta volume in Hg2, Hsamples.
  assert (Htotal : g2 = frames (Z.to_nat (n + m)) delta g).
  { rewrite Hg2, Hg1, Z2Nat.inj_add by assumption. now rewrite frames_add. }
  split; [exact Htotal|]. split.
  - intros out3 out3' g3 Hrun3.
    rewrite Hb1, Hf1, Hv1 in *.
    apply (Generate_is_loop sin out3 out3' _ _ g g3 getFreq getVolume Hb Hf Hv)
      in Hrun3.
    apply gen_loop_inv in Hrun3 as (-> & _); [|unfold CInt.INT_MAX; lia].
    now rewrite Htotal.
  - intros i Hi. destruct (Hsamples i) as [HL _]; [lia|].
    replace (Z.to_nat (2 * (0 + Z.of_nat i))) with (2 * i)%nat in HL by lia.
    rewrite HL. unfold sample_at, phase_at, envelope_at.
    now rewrite Hg1, <- !frames_add.
Qed.

(** X7.  A generate call that returns with both providers registered keeps
    the length of the caller's block and writes nothing at or beyond sample
    2n: every sample from position 2n on is as the caller left it. *)
Theorem Generate_tail_untouched (out out' : list D) (nsamples samplerate : Z)
    (g g' : globals D) (getFreq : unit -> Z) (getVolume : unit -> D) :
  is_Some (g_buffer g) ->
  g_getFreq g = Some getFreq -> g_getVolume g = Some getVolume ->
  SidetoneGen_Generate sin (Some out) nsamples samplerate g
    = Some (g', Some out') ->
  length out' = length out /\
  forall idx : nat, 2 * nsamples <= Z.of_nat idx -> out' !! idx = out !! idx.
Proof.
  intros Hb Hf Hv Hrun.
  apply (Generate_is_loop sin out out' _ _ g g' getFreq getVolume Hb Hf Hv)
    in Hrun.
  apply gen_loop_inv in Hrun as (_ & Hlen & Hkeep & _);
    [|unfold CInt.INT_MAX; lia].
  split; [exact Hlen|]. intros idx Hidx. apply Hkeep. right. lia.
Qed.

(** X12.  No frames, no effect: a call with nsamples = 0, or with a negative
    nsamples while both providers are registered, returns the state and the
    caller's block unchanged. *)
Theorem Generate_no_frames (out : list D) (nsamples samplerate : Z)
    (g : globals D) :
  nsamples = 0 \/
  (nsamples < 0 /\ is_Some (g_getFreq g) /\ is_Some (g_getVolume g)) ->
  SidetoneGen_Generate sin (Some out) nsamples samplerate g
    = Some (g, Some out).
Proof.
  intros Hcase. unfold SidetoneGen_Generate.
  destruct (g_buffer g) as [b|]; [|reflexivity].
  destruct Hcase as [-> | (Hneg & [f ->] & [v ->])].
  - assert (Hset : memset_zero out
                     (CInt.size_mul (CInt.to_size_t (CInt.mul 0 2))
                                    CInt.sizeof_double) = Some out).
    { change (CInt.size_mul (CInt.to_size_t (CInt.mul 0 2)) CInt.sizeof_double)
        with 0.
      unfold memset_zero, CInt.sizeof_double.
      destruct (Z.leb_spec 0 (8 * Z.of_nat (length out))); [reflexivity | lia]. }
    destruct (g_getFreq g), (g_getVolume g); rewrite ?Hset; reflexivity.
  - replace (Z.to_nat nsamples) with 0%nat by lia. reflexivity.
Qed.

(** X13.  A negative frame count is not safe without providers: with -2^30
    <= nsamples < 0, the frequency or the volume provider missing and an
    initialised generator, the byte count handed to memset wraps around to
    2^64 + 16 * nsamples, and the call writes beyond any block of fewer than
    2^60 samples. *)
Theorem Generate_negative_count_overruns (out : list D)
    (nsamples samplerate : Z) (g : globals D) :
  is_Some (g_buffer g) ->
  g_getFreq g = None \/ g_getVolume g = None ->
  -1073741824 <= nsamples < 0 ->
  Z.of_nat (length out) < 2 ^ 60 ->
  CInt.size_mul (CInt.to_size_t (CInt.mul nsamples 2)) CInt.sizeof_double
    = 2 ^ 64 + 16 * nsamples /\
  SidetoneGen_Generate sin (Some out) nsamples samplerate g = None.
Proof.
  intros Hb Hprov Hn Hlen.
  assert (Hbytes :
    CInt.size_mul (CInt.to_size_t (CInt.mul nsamples 2)) CInt.sizeof_double
      = 2 ^ 64 + 16 * nsamples).
  { rewrite silence_bytes by (unfold CInt.INT_MIN, CInt.INT_MAX; lia).
    unfold CInt.SIZE_MODULUS. symmetry.
    apply (Z.mod_unique _ _ (-1)); lia. }
  split; [exact Hbytes|].
  rewrite Generate_is_memset by assumption. rewrite Hbytes.
  unfold memset_zero, CInt.sizeof_double.
  destruct (Z.leb_spec (2 ^ 64 + 16 * nsamples) (8 * Z.of_nat (length out)));
    [lia | reflexivity].
Qed.

(** ** The envelope over a whole run *)

(** X8.  In every state the API can reach from the static initialisers, the
    stored transmit state is 1 exactly when the envelope is fading in or
    sustained; the fade state is one of 0, 1, 2, 3; the counter lies in
    [0, 48], and below 48 while a ramp runs. *)
Theorem reachable_envelope_state (g : globals D) :
  reachable sin g ->
  (g_tx_active g = 1 <-> g_fade_state g = 1 \/ g_fade_state g = 2) /\
  fade_invariant g.
Proof.
  intros Hreach. split; [|exact (reachable_fade_invariant g Hreach)].
  split; [exact (reachable_invariant sin g Hreach)|].
  induction Hreach as [ | heap_ok blocksize g _ IH | g _ IH | v g _ IH
                      | e f vol g _ IH | buffer n sr g g' buffer' Hr IH Hrun].
  - simpl. intros [Hs | Hs]; discriminate Hs.
  - unfold SidetoneGen_Initialize.
    destruct heap_ok; simpl; [intros [Hs | Hs]; discriminate Hs | exact IH].
  - simpl. intros [Hs | Hs]; discriminate Hs.
  - unfold SidetoneGen_SetTXActive.
    destruct (Z.eqb_spec (g_tx_active g) v); [exact IH|].
    destruct (Z.eqb_spec v 1); simpl; [auto|].
    intros [Hs | Hs]; discriminate Hs.
  - exact IH.
  - destruct (Generate_frame_condition_aux g g' buffer buffer' n sr Hrun)
      as [Htx Hstate].
    rewrite Htx. intros Hs. apply IH, Hstate, Hs.
Qed.

(** For one and the same increment, SetCallbacks and the frame loop commute:
    the registration touches neither the phase nor the envelope state. *)
Lemma frames_after_SetCallbacks (delta : D) (k : nat)
    (getEnabled getFreq : option (unit -> Z)) (getVolume : option (unit -> D))
    (g : globals D) :
  frames k delta (SidetoneGen_SetCallbacks getEnabled getFreq getVolume g)
    = SidetoneGen_SetCallbacks getEnabled getFreq getVolume (frames k delta g) /\
  envelope_at k delta (SidetoneGen_SetCallbacks getEnabled getFreq getVolume g)
    = envelope_at k delta g /\
  phase_at k delta (SidetoneGen_SetCallbacks getEnabled getFreq getVolume g)
    = phase_at k delta g.
Proof.
  assert (Hstep : forall g0 : globals D,
            frame_next delta
              (SidetoneGen_SetCallbacks getEnabled getFreq getVolume g0)
            = SidetoneGen_SetCallbacks getEnabled getFreq getVolume
                (frame_next delta g0)).
  { intros [tx ph st c b bs ge gf gv log].
    unfold frame_next, advance_phase, fade_envelope, SidetoneGen_SetCallbacks.
    cbn [g_fade_state g_fade_counter g_phase set_callbacks OutputDebugStringA
         set_fade_counter set_fade_state set_phase].
    destruct (st =? 1), (st =? 3), (st =? 0), (CInt.add c 1 >=? FADE_SAMPLES);
      cbn [fst snd g_fade_state g_fade_counter g_phase set_callbacks
           OutputDebugStringA set_fade_counter set_fade_state set_phase];
      destruct (dge _ _); reflexivity. }
  assert (Hrun : forall (j : nat) (g0 : globals D),
            frames j delta
              (SidetoneGen_SetCallbacks getEnabled getFreq getVolume g0)
            = SidetoneGen_SetCallbacks getEnabled getFreq getVolume
                (frames j delta g0)).
  { induction j as [|j IH]; intros g0; simpl; [reflexivity|].
    rewrite Hstep. apply IH. }
  split; [apply Hrun|]. unfold envelope_at, phase_at. rewrite Hrun. split.
  - generalize (frames k delta g). intros [tx ph st c b bs ge gf gv log].
    unfold fade_envelope, SidetoneGen_SetCallbacks.
    cbn [g_fade_state g_fade_counter g_phase set_callbacks OutputDebugStringA
         set_fade_counter set_fade_state set_phase].
    destruct (st =? 1), (st =? 3), (st =? 0), (CInt.add c 1 >=? FADE_SAMPLES);
      reflexivity.
  - reflexivity.
Qed.

(** X16.  A registration takes effect at the next generate call and resets
    nothing: a returning call of n frames after SetCallbacks with a frequency
    and a volume provider continues from the phase and the envelope state the
    generator had before the registration, with the increment computed from
    the new frequency provider and the samples scaled by the new volume
    provider; it returns the registration applied to the state after those n
    frames. *)
Theorem Generate_after_SetCallbacks (out out' : list D)
    (nsamples samplerate : Z) (getEnabled : option (unit -> Z))
    (getFreq : unit -> Z) (getVolume : unit -> D) (g g' : globals D) :
  is_Some (g_buffer g) ->
  SidetoneGen_Generate sin (Some out) nsamples samplerate
    (SidetoneGen_SetCallbacks getEnabled (Some getFreq) (Some getVolume) g)
    = Some (g', Some out') ->
  g' = SidetoneGen_SetCallbacks getEnabled (Some getFreq) (Some getVolume)
         (frames (Z.to_nat nsamples)
            (delta_phase_of (getFreq tt) samplerate) g) /\
  g_phase g' = phase_at (Z.to_nat nsamples)
                 (delta_phase_of (getFreq tt) samplerate) g /\
  forall i : nat, Z.of_nat i < nsamples ->
    out' !! (2 * i)%nat =
      Some (dmul (dmul (sin (phase_at i
                               (delta_phase_of (getFreq tt) samplerate) g))
                       (getVolume tt))
                 (envelope_at i (delta_phase_of (getFreq tt) samplerate) g)) /\
    out' !! (2 * i + 1)%nat = out' !! (2 * i)%nat.
Proof.
  intros Hb Hrun.
  set (delta := delta_phase_of (getFreq tt) samplerate) in *.
  set (g0 := SidetoneGen_SetCallbacks getEnabled (Some getFreq)
               (Some getVolume) g) in *.
  assert (Hb0 : is_Some (g_buffer g0)) by exact Hb.
  apply (Generate_is_loop sin out out' _ _ g0 g' getFreq getVolume Hb0 eq_refl
           eq_refl) in Hrun.
  fold delta in Hrun.
  apply gen_loop_inv in Hrun as (Hg & _ & _ & Hsamples);
    [|unfold CInt.INT_MAX; lia].
  assert (Hstate : g' = SidetoneGen_SetCallbacks getEnabled (Some getFreq)
                          (Some getVolume) (frames (Z.to_nat nsamples) delta g)).
  { rewrite Hg. unfold g0.
    apply (frames_after_SetCallbacks delta (Z.to_nat nsamples)). }
  split; [exact Hstate|]. split; [rewrite Hstate; reflexivity|].
  intros i Hi. destruct (Hsamples i) as [HL HR]; [lia|].
  replace (Z.to_nat (2 * (0 + Z.of_nat i))) with (2 * i)%nat in HL by lia.
  replace (Z.to_nat (2 * (0 + Z.of_nat i) + 1)) with (2 * i + 1)%nat in HR by lia.
  rewrite HR, HL. split; [|reflexivity].
  unfold sample_at, g0.
  destruct (frames_after_SetCallbacks delta i getEnabled (Some getFreq)
              (Some getVolume) g) as (_ & -> & ->).
  reflexivity.
Qed.

(** X10.  Once a transmit-active edge has been followed by 48 frames or
    more, the envelope is sustained: the fade state is 2, the stored
    transmit state is still 1 and every further frame applies exactly 1.0,
    for as long as no other edge arrives. *)
Theorem fade_in_then_sustain (delta : D) (g : globals D) (k : nat) :
  g_tx_active g <> 1 -> (48 <= k)%nat ->
  g_fade_state (frames k delta (SidetoneGen_SetTXActive 1 g)) = 2 /\
  g_tx_active (frames k delta (SidetoneGen_SetTXActive 1 g)) = 1 /\
  envelope_at k delta (SidetoneGen_SetTXActive 1 g) = d_1.
Proof.
  intros Htx Hk. destruct (SetTXActive_on g Htx) as (Hs & Hc & _).
  pose proof (after_ramp delta 1 _ k (or_introl eq_refl) Hs Hc Hk) as Hend.
  change (if 1 =? 1 then 2 else 0) with 2 in Hend. split; [exact Hend|]. split.
  - rewrite frames_tx_active. apply SetTXActive_stores.
  - unfold envelope_at. now rewrite sustain_frame.
Qed.

(** X11.  Once a transmit edge to any value other than 1 has been followed
    by 48 frames or more, the generator is idle: the fade state is 0 and
    every further frame applies exactly 0.0, for as long as no other edge
    arrives. *)
Theorem fade_out_then_idle (delta : D) (v : Z) (g : globals D) (k : nat) :
  v <> 1 -> g_tx_active g <> v -> (48 <= k)%nat ->
  g_fade_state (frames k delta (SidetoneGen_SetTXActive v g)) = 0 /\
  envelope_at k delta (SidetoneGen_SetTXActive v g) = d_0.
Proof.
  intros Hv Htx Hk. destruct (SetTXActive_off v g Hv Htx) as (Hs & Hc & _).
  pose proof (after_ramp delta 3 _ k (or_intror eq_refl) Hs Hc Hk) as Hend.
  change (if 3 =? 1 then 2 else 0) with 0 in Hend. split; [exact Hend|].
  unfold envelope_at. now rewrite idle_frame.
Qed.

End Lifecycle.

(** ** The envelope values in double precision *)

Section Binary64Envelope.

Local Open Scope float_scope.

(** The 48 values of either ramp, checked one by one. *)
Lemma ramp_values (i : nat) :
  (i < 48)%nat ->
  PrimFloat.leb 0 (double_of_int (Z.of_nat i) / double_of_int 48) = true /\
  PrimFloat.leb (double_of_int (Z.of_nat i) / double_of_int 48) 1 = true /\
  PrimFloat.leb 0 (1 - double_of_int (Z.of_nat i) / double_of_int 48) = true /\
  PrimFloat.leb (1 - double_of_int (Z.of_nat i) / double_of_int 48) 1 = true.
Proof.
  intros Hi.
  assert (Hall :
    forallb (fun j =>
               let q := double_of_int (Z.of_nat j) / double_of_int 48 in
               PrimFloat.leb 0 q && PrimFloat.leb q 1
               && PrimFloat.leb 0 (1 - q) && PrimFloat.leb (1 - q) 1)
            (seq 0 48) = true) by (vm_compute; reflexivity).
  rewrite forallb_forall in Hall.
  specialize (Hall i ltac:(apply in_seq; lia)). cbv zeta in Hall.
  rewrite !andb_true_iff in Hall. tauto.
Qed.

Lemma ramp_steps (i : nat) :
  (i < 47)%nat ->
  PrimFloat.ltb (double_of_int (Z.of_nat i) / double_of_int 48)
                (double_of_int (Z.of_nat (S i)) / double_of_int 48) = true /\
  PrimFloat.ltb (1 - double_of_int (Z.of_nat (S i)) / double_of_int 48)
                (1 - double_of_int (Z.of_nat i) / double_of_int 48) = true /\
  PrimFloat.ltb 0 (1 - double_of_int (Z.of_nat i) / double_of_int 48) = true.
Proof.
  intros Hi.
  assert (Hall :
    forallb (fun j =>
               let q := double_of_int (Z.of_nat j) / double_of_int 48 in
               let q' := double_of_int (Z.of_nat (S j)) / double_of_int 48 in
               PrimFloat.ltb q q' && PrimFloat.ltb (1 - q') (1 - q)
               && PrimFloat.ltb 0 (1 - q))
            (seq 0 47) = true) by (vm_compute; reflexivity).
  rewrite forallb_forall in Hall.
  specialize (Hall i ltac:(apply in_seq; lia)). cbv zeta in Hall.
  rewrite !andb_true_iff in Hall. tauto.
Qed.

(** X9.  In double precision the envelope never leaves [0, 1]: in every
    reachable state the envelope applied to the next frame is at least 0.0
    and at most 1.0. *)
Theorem reachable_envelope_in_unit_interval (sin : float -> float)
    (g : globals float) :
  reachable sin g ->
  PrimFloat.leb 0 (fst (fade_envelope g)) = true /\
  PrimFloat.leb (fst (fade_envelope g)) 1 = true.
Proof.
  intros Hreach.
  destruct (reachable_fade_invariant sin g Hreach) as (Hc & Hs).
  unfold FADE_SAMPLES in *.
  destruct Hs as [Hs | [Hs | [[Hs | Hs] Hlt]]].
  - rewrite idle_frame by exact Hs. split; reflexivity.
  - rewrite sustain_frame by exact Hs. split; reflexivity.
  - destruct (fade_in_frame g Hs) as (-> & _); [unfold FADE_SAMPLES; lia|].
    destruct (ramp_values (Z.to_nat (g_fade_counter g))) as (A & B & _);
      [lia|].
    rewrite Z2Nat.id in A, B by lia. split; [exact A | exact B].
  - destruct (fade_out_frame g Hs) as (-> & _); [unfold FADE_SAMPLES; lia|].
    destruct (_ >=? _); [split; reflexivity|].
    destruct (ramp_values (Z.to_nat (g_fade_counter g))) as (_ & _ & A & B);
      [lia|].
    rewrite Z2Nat.id in A, B by lia. split; [exact A | exact B].
Qed.

(** X14.  In double precision the fade-in is strictly increasing: after a
    transmit-active edge the envelope of frame i + 1 is above the envelope of
    frame i for every i < 48, up to the 1.0 of frame 48. *)
Theorem fade_in_strictly_increasing (delta : float) (g : globals float)
    (i : nat) :
  g_tx_active g <> 1%Z -> (i < 48)%nat ->
  PrimFloat.ltb (envelope_at i delta (SidetoneGen_SetTXActive 1 g))
                (envelope_at (S i) delta (SidetoneGen_SetTXActive 1 g)) = true.
Proof.
  intros Htx Hi. destruct (SetTXActive_on g Htx) as (Hs & Hc & _).
  rewrite (fade_in_envelope delta _ Hs Hc i Hi).
  destruct (Nat.eq_dec i 47%nat) as [-> | Hne].
  - pose proof (after_ramp delta 1%Z _ 48%nat (or_introl eq_refl) Hs Hc (le_n 48%nat))
      as Hend. change (if (1 =? 1)%Z then 2%Z else 0%Z) with 2%Z in Hend.
    unfold envelope_at. rewrite sustain_frame by exact Hend. reflexivity.
  - rewrite (fade_in_envelope delta _ Hs Hc (S i)) by lia.
    apply ramp_steps. lia.
Qed.

(** X15.  In double precision the fade-out is strictly decreasing: after a
    transmit edge to a value other than 1 the envelope of frame i + 1 is
    below the envelope of frame i for every i < 47, from the 1.0 of frame 0
    down to the 0.0 of frame 47. *)
Theorem fade_out_strictly_decreasing (delta : float) (v : Z)
    (g : globals float) (i : nat) :
  v <> 1%Z -> g_tx_active g <> v -> (i < 47)%nat ->
  PrimFloat.ltb (envelope_at (S i) delta (SidetoneGen_SetTXActive v g))
                (envelope_at i delta (SidetoneGen_SetTXActive v g)) = true /\
  envelope_at 0 delta (SidetoneGen_SetTXActive v g) = 1 /\
  envelope_at 47 delta (SidetoneGen_SetTXActive v g) = 0.
Proof.
  intros Hv Htx Hi. destruct (SetTXActive_off v g Hv Htx) as (Hs & Hc & _).
  split; [|split].
  - rewrite (fade_out_envelope delta _ Hs Hc i) by lia.
    rewrite (fade_out_envelope delta _ Hs Hc (S i)) by lia.
    destruct (Z.geb_spec (Z.of_nat i + 1) 48); [lia|].
    destruct (Z.geb_spec (Z.of_nat (S i) + 1) 48).
    + apply ramp_steps. lia.
    + apply ramp_steps. lia.
  - rewrite (fade_out_envelope delta _ Hs Hc 0%nat) by lia. reflexivity.
  - rewrite (fade_out_envelope delta _ Hs Hc 47%nat) by lia. reflexivity.
Qed.

End Binary64Envelope.

(** ** Closed instances on the reference run *)

Section LifecycleInstances.

Local Open Scope float_scope.

Lemma example_tx_on_reachable : reachable sin_poly example_tx_on.
Proof.
  unfold example_tx_on, example_ready.
  apply reach_SetTXActive, reach_SetCallbacks, reach_Initialize, reach_initial.
Qed.

(** The call of three frames used below returns. *)
Lemma example_call :
  exists out' : list float,
    SidetoneGen_Generate sin_poly (Some (replicate 8 7)) 3 48000 example_tx_on
      = Some (frames 3 example_delta example_tx_on, Some out').
Proof.
  assert (Hb : is_Some (g_buffer example_tx_on)) by (eexists; reflexivity).
  assert (Hlen : (2 * 3 <= Z.of_nat (length (replicate 8 7%float)))%Z)
    by (simpl; lia).
  assert (Hmax : (2 * 3 <= CInt.INT_MAX + 1)%Z) by (unfold CInt.INT_MAX; lia).
  exact (Generate_returns sin_poly (replicate 8 7) 3 48000 example_tx_on
           (fun _ => 600%Z) (fun _ => 0.5) Hb eq_refl eq_refl Hlen Hmax).
Qed.

(** initialize(512) allocates 1024 zeroed doubles. *)
Lemma Initialize_success_witness :
  g_buffer (SidetoneGen_Initialize true 512 (initial_globals (D:=float)))
    = Some (replicate 1024 0).
Proof.
  assert (Hb : (0 <= 512)%Z) by lia.
  assert (Hmax : (2 * 512 <= CInt.INT_MAX)%Z) by (unfold CInt.INT_MAX; lia).
  exact (proj1 (Initialize_success 512 initial_globals Hb Hmax)).
Defined.

(** Destroy and initialise in the middle of the reference run: silence. *)
Lemma Destroy_then_Initialize_is_silent_witness :
  SidetoneGen_Generate sin_poly (Some (replicate 8 7)) 3 48000
    (SidetoneGen_Initialize true 512 (SidetoneGen_Destroy example_tx_on))
  = Some (SidetoneGen_Initialize true 512 (SidetoneGen_Destroy example_tx_on),
          Some [0; 0; 0; 0; 0; 0; 7; 7]).
Proof.
  assert (Hn : (0 <= 3)%Z) by lia.
  assert (Hlen : (2 * 3 <= Z.of_nat (length (replicate 8 7%float)))%Z)
    by (simpl; lia).
  assert (Hmax : (2 * 3 <= CInt.INT_MAX)%Z) by (unfold CInt.INT_MAX; lia).
  exact (Destroy_then_Initialize_is_silent sin_poly (replicate 8 7) 512 3 48000
           example_tx_on Hn Hlen Hmax).
Defined.

Lemma Generate_frame_condition_witness :
  same_configuration example_tx_on (frames 3 example_delta example_tx_on).
Proof.
  destruct example_call as [out' Hrun].
  exact (Generate_frame_condition sin_poly _ _ 3 48000 example_tx_on _ Hrun).
Defined.

(** Three frames and then two, against five at once. *)
Lemma Generate_block_split_witness :
  exists (g2 : globals float) (out2' : list float),
    SidetoneGen_Generate sin_poly (Some (replicate 4 7)) 2 48000
      (frames 3 example_delta example_tx_on) = Some (g2, Some out2') /\
    g2 = frames 5 example_delta example_tx_on /\
    forall i : nat, (Z.of_nat i < 2)%Z ->
      out2' !! (2 * i)%nat =
        Some (sin_poly (phase_at (3 + i) example_delta example_tx_on) * 0.5
              * envelope_at (3 + i) example_delta example_tx_on).
Proof.
  destruct example_call as [out1' Hrun1].
  assert (Hb : is_Some (g_buffer example_tx_on)) by (eexists; reflexivity).
  assert (Hb1 : is_Some (g_buffer (frames 3 example_delta example_tx_on)))
    by (eexists; reflexivity).
  assert (Hlen : (2 * 2 <= Z.of_nat (length (replicate 4 7%float)))%Z)
    by (simpl; lia).
  assert (Hmax : (2 * 2 <= CInt.INT_MAX + 1)%Z) by (unfold CInt.INT_MAX; lia).
  destruct (Generate_returns sin_poly (replicate 4 7) 2 48000
              (frames 3 example_delta example_tx_on)
              (fun _ => 600%Z) (fun _ => 0.5) Hb1 eq_refl eq_refl Hlen Hmax)
    as [out2' Hrun2].
  assert (Hn : (0 <= 3)%Z) by lia.
  assert (Hm : (0 <= 2)%Z) by lia.
  destruct (Generate_block_split sin_poly _ _ _ _ 3 2 48000 example_tx_on _ _
              (fun _ => 600%Z) (fun _ => 0.5) Hb eq_refl eq_refl Hn Hm
              Hrun1 Hrun2) as (Hg2 & _ & Hsamples).
  exists (frames 2 example_delta (frames 3 example_delta example_tx_on)), out2'.
  split; [exact Hrun2|]. split; [exact Hg2 | exact Hsamples].
Defined.

Lemma Generate_tail_untouched_witness :
  exists out' : list float,
    SidetoneGen_Generate sin_poly (Some (replicate 8 7)) 3 48000 example_tx_on
      = Some (frames 3 example_delta example_tx_on, Some out') /\
    out' !! 6%nat = Some 7 /\ out' !! 7%nat = Some 7.
Proof.
  destruct example_call as [out' Hrun].
  assert (Hb : is_Some (g_buffer example_tx_on)) by (eexists; reflexivity).
  destruct (Generate_tail_untouched sin_poly _ _ 3 48000 example_tx_on _
              (fun _ => 600%Z) (fun _ => 0.5) Hb eq_refl eq_refl Hrun)
    as [_ Hkeep].
  exists out'. split; [exact Hrun|].
  split; [exact (Hkeep 6%nat ltac:(lia)) | exact (Hkeep 7%nat ltac:(lia))].
Defined.

Lemma Generate_no_frames_witness :
  SidetoneGen_Generate sin_poly (Some [7; 7]) (-4) 48000 example_tx_on
    = Some (example_tx_on, Some [7; 7]).
Proof.
  assert (Hneg : (-4 < 0)%Z) by lia.
  assert (Hf : is_Some (g_getFreq example_tx_on)) by (eexists; reflexivity).
  assert (Hv : is_Some (g_getVolume example_tx_on)) by (eexists; reflexivity).
  exact (Generate_no_frames sin_poly [7; 7] (-4) 48000 example_tx_on
           (or_intror (conj Hneg (conj Hf Hv)))).
Defined.

(** Generate(buf, -1, 48000) before any provider is registered. *)
Lemma Generate_negative_count_overruns_witness :
  SidetoneGen_Generate sin_poly (Some (replicate 8 7)) (-1) 48000
    (SidetoneGen_Initialize true 512 initial_globals) = None.
Proof.
  assert (Hb : is_Some (g_buffer (SidetoneGen_Initialize true 512
                                    (initial_globals (D:=float)))))
    by (eexists; reflexivity).
  assert (Hn : (-1073741824 <= -1 < 0)%Z) by lia.
  assert (Hlen : (Z.of_nat (length (replicate 8 7%float)) < 2 ^ 60)%Z)
    by (simpl; lia).
  exact (proj2 (Generate_negative_count_overruns sin_poly (replicate 8 7) (-1)
                  48000 _ Hb (or_introl eq_refl) Hn Hlen)).
Defined.

Lemma reachable_envelope_state_witness :
  (g_tx_active example_tx_on = 1%Z <->
     g_fade_state example_tx_on = 1%Z \/ g_fade_state example_tx_on = 2%Z) /\
  fade_invariant example_tx_on.
Proof.
  exact (reachable_envelope_state sin_poly example_tx_on
           example_tx_on_reachable).
Defined.

Lemma reachable_envelope_in_unit_interval_witness :
  PrimFloat.leb 0 (fst (fade_envelope example_tx_on)) = true /\
  PrimFloat.leb (fst (fade_envelope example_tx_on)) 1 = true.
Proof.
  exact (reachable_envelope_in_unit_interval sin_poly example_tx_on
           example_tx_on_reachable).
Defined.

Lemma fade_in_then_sustain_witness :
  g_fade_state (frames 100 example_delta example_tx_on) = 2%Z /\
  g_tx_active (frames 100 example_delta example_tx_on) = 1%Z /\
  envelope_at 100 example_delta example_tx_on = 1.
Proof.
  assert (Hoff : g_tx_active example_ready <> 1%Z) by (vm_compute; discriminate).
  assert (Hk : (48 <= 100)%nat) by lia.
  exact (fade_in_then_sustain example_delta example_ready 100 Hoff Hk).
Defined.

Lemma fade_out_then_idle_witness :
  g_fade_state
    (frames 48 example_delta (SidetoneGen_SetTXActive 0 example_tx_on)) = 0%Z /\
  envelope_at 48 example_delta (SidetoneGen_SetTXActive 0 example_tx_on) = 0.
Proof.
  assert (Hv : 0%Z <> 1%Z) by lia.
  assert (Hon : g_tx_active example_tx_on <> 0%Z) by (vm_compute; discriminate).
  assert (Hk : (48 <= 48)%nat) by lia.
  exact (fade_out_then_idle example_delta 0 example_tx_on 48 Hv Hon Hk).
Defined.

Lemma fade_in_strictly_increasing_witness :
  PrimFloat.ltb (envelope_at 47 example_delta example_tx_on)
                (envelope_at 48 example_delta example_tx_on) = true.
Proof.
  assert (Hoff : g_tx_active example_ready <> 1%Z) by (vm_compute; discriminate).
  assert (Hi : (47 < 48)%nat) by lia.
  exact (fade_in_strictly_increasing example_delta example_ready 47 Hoff Hi).
Defined.

Lemma fade_out_strictly_decreasing_witness :
  PrimFloat.ltb
    (envelope_at 47 example_delta (SidetoneGen_SetTXActive 0 example_tx_on))
    (envelope_at 46 example_delta (SidetoneGen_SetTXActive 0 example_tx_on))
    = true.
Proof.
  assert (Hv : 0%Z <> 1%Z) by lia.
  assert (Hon : g_tx_active example_tx_on <> 0%Z) by (vm_compute; discriminate).
  assert (Hi : (46 < 47)%nat) by lia.
  exact (proj1 (fade_out_strictly_decreasing example_delta 0 example_tx_on 46
                  Hv Hon Hi)).
Defined.

(** After three frames of the reference run the providers are replaced by
    1200 Hz at volume 0.25; the next two frames continue the same phase and
    fade-in. *)
Lemma Generate_after_SetCallbacks_witness :
  exists out' : list float,
    SidetoneGen_Generate sin_poly (Some (replicate 4 7)) 2 48000
      (SidetoneGen_SetCallbacks (Some (fun _ => 1%Z)) (Some (fun _ => 1200%Z))
         (Some (fun _ => 0.25)) (frames 3 example_delta example_tx_on))
    = Some (SidetoneGen_SetCallbacks (Some (fun _ => 1%Z))
              (Some (fun _ => 1200%Z)) (Some (fun _ => 0.25))
              (frames 2 (delta_phase_of 1200 48000)
                 (frames 3 example_delta example_tx_on)),
            Some out') /\
    forall i : nat, (Z.of_nat i < 2)%Z ->
      out' !! (2 * i)%nat =
        Some (sin_poly (phase_at i (delta_phase_of 1200 48000)
                          (frames 3 example_delta example_tx_on)) * 0.25
              * envelope_at i (delta_phase_of 1200 48000)
                  (frames 3 example_delta example_tx_on)) /\
      out' !! (2 * i + 1)%nat = out' !! (2 * i)%nat.
Proof.
  set (g3 := frames 3 example_delta example_tx_on).
  set (g4 := SidetoneGen_SetCallbacks (Some (fun _ => 1%Z))
               (Some (fun _ => 1200%Z)) (Some (fun _ => 0.25)) g3).
  assert (Hb : is_Some (g_buffer g3)) by (eexists; reflexivity).
  assert (Hb4 : is_Some (g_buffer g4)) by (eexists; reflexivity).
  assert (Hlen : (2 * 2 <= Z.of_nat (length (replicate 4 7%float)))%Z)
    by (simpl; lia).
  assert (Hmax : (2 * 2 <= CInt.INT_MAX + 1)%Z) by (unfold CInt.INT_MAX; lia).
  destruct (Generate_returns sin_poly (replicate 4 7) 2 48000 g4
              (fun _ => 1200%Z) (fun _ => 0.25) Hb4 eq_refl eq_refl Hlen Hmax)
    as [out' Hrun].
  destruct (Generate_after_SetCallbacks sin_poly (replicate 4 7) out' 2 48000
              (Some (fun _ => 1%Z)) (fun _ => 1200%Z) (fun _ => 0.25) g3 _
              Hb Hrun) as (Hg & _ & Hsamples).
  exists out'. split; [|exact Hsamples].
  rewrite Hrun, Hg. reflexivity.
Defined.

End LifecycleInstances.
